(** * The emitter client (v2/emitter.go): dispatch, correlation and topics

    A shallow embedding of the client of [v2/emitter.go]: the inbound
    dispatcher [onMessage] with [onError] and [onResponse], the blocking
    request calls ([request], [do], [ID], [GenerateKey], [CreateLink],
    [CreatePrivateLink]), the registry-mutating calls ([Subscribe],
    [Unsubscribe]), the topic formatter [formatTopic], and the publishing
    calls ([Publish], [PublishWithTTL], [PublishWithLink],
    [SubscribeWithHistory], [Presence]) with the wait of [Disconnect].

    - The client is a record of its fields; a call runs in a world, the
      client and the log of what it did to the outside, and either
      returns, never returns or panics.
    - User callbacks are Go function values: they are kept as opaque
      identifiers and a call of one is an entry of the log.
    - The transport and [encoding/json] are external: a transport call is
      answered by a token the caller of the model supplies, the codec is
      a class.
    - The dispatch context runs beside the callers: a blocking call is
      given the messages that arrive while it waits.
    - The registry and the store are declared outside [emitter.go]; they
      are modelled from the specification. *)

From Stdlib Require Import ZArith NArith Lia Bool Ascii.
From stdpp Require Import base option list strings pretty gmap.

Local Open Scope string_scope.
Local Open Scope list_scope.
Set Warnings "-register-all".

(** ** Go's [strings] helpers used by the client *)

Module GoStrings.

(** [strings.HasPrefix(s, prefix)]. *)
Definition HasPrefix (s pre : string) : bool := String.prefix pre s.

(** [strings.HasSuffix(s, suffix)]:
    [len(s) >= len(suffix) && s[len(s)-len(suffix):] == suffix]. *)
Definition HasSuffix (s suf : string) : bool :=
  (String.length suf <=? String.length s)%nat
  && String.eqb
       (String.substring (String.length s - String.length suf)
                         (String.length suf) s)
       suf.

(** [strings.TrimPrefix(s, prefix)]: [s[len(prefix):]] when [s] starts
    with [prefix], [s] otherwise. *)
Definition TrimPrefix (s pre : string) : string :=
  if HasPrefix s pre
  then String.substring (String.length pre)
                        (String.length s - String.length pre) s
  else s.

(** [strings.TrimSuffix(s, suffix)]. *)
Definition TrimSuffix (s suf : string) : string :=
  if HasSuffix s suf
  then String.substring 0 (String.length s - String.length suf) s
  else s.

(** [strings.Split(s, "/")] for a one-character separator: the
    segments between separators, empty segments kept. *)
Fixpoint Split (sep : Ascii.ascii) (s : string) : list string :=
  match s with
  | "" => [ "" ]
  | String c rest =>
      if Ascii.eqb c sep then "" :: Split sep rest
      else match Split sep rest with
           | [] => [ String c "" ]
           | seg :: segs => String c seg :: segs
           end
  end.

(** [strings.Join(elems, sep)]. *)
Fixpoint Join (elems : list string) (sep : string) : string :=
  match elems with
  | [] => ""
  | [ e ] => e
  | e :: rest => e +:+ sep +:+ Join rest sep
  end.

End GoStrings.
Import GoStrings.

(** ** Options and the topic format *)

(** Modelled from the spec: the [Option] interface, declared outside
    [emitter.go]: anything with a [String()] method, giving the
    [option=value] text of the option. *)
Class Stringer (A : Type) := ToString : A → string.

Section FormatTopic.
Context {Option : Type} `{Stringer Option}.

(** The [for i, option := range options] loop of [formatTopic]; [n] is
    [len(options)] and [i] the index of the head of [rest]. *)
Fixpoint options_loop (n i : nat) (rest : list Option) (opts : string)
  : string :=
  match rest with
  | [] => opts
  | option :: rest' =>
      let opts1 := opts +:+ ToString option in
      let opts2 := if (i + 1 <? n)%nat then opts1 +:+ "&" else opts1 in
      options_loop n (i + 1) rest' opts2
  end.

(** [formatTopic(key, channel, options)]; a nil slice is the empty
    list. *)
Definition formatTopic (key channel : string) (options : list Option)
  : string :=
  let key := TrimPrefix key "/" in
  let key := TrimSuffix key "/" in
  let channel := TrimPrefix channel "/" in
  let channel := TrimSuffix channel "/" in
  let opts :=
    if (0 <? length options)%nat
    then options_loop (length options) 0 options ("" +:+ "?")
    else "" in
  if (String.length key =? 0)%nat
  then channel +:+ "/" +:+ opts
  else key +:+ "/" +:+ channel +:+ "/" +:+ opts.

(** The query of a topic in the words of the specification: nothing
    without options, otherwise [?] and the options joined by [&]. *)
Definition query_spec (options : list Option) : string :=
  match options with
  | [] => ""
  | _ => "?" +:+ Join (map ToString options) "&"
  end.

(** The cleaned form of a key or channel: one leading and one trailing
    slash removed. *)
Definition clean (s : string) : string :=
  TrimSuffix (TrimPrefix s "/") "/".

End FormatTopic.

(** ** Data of the package *)

(** Callbacks are Go function values; only their identity is kept. *)
Definition MessageHandler := nat.
Definition ConnectHandler := nat.
Definition DisconnectHandler := nat.
Definition PresenceHandler := nat.
Definition ErrorHandler := nat.

(** [Message]: what a received message must offer, [Topic()] and
    [Payload()]. *)
Record Message := { Topic : string; Payload : string }.

(** Modelled from the spec: the error envelope [Error], declared outside
    [emitter.go]; it carries a request id (0 when absent) and an error
    message, which the methods [RequestID()] and [Error()] return.  The
    id is a [uint16]; no arithmetic is done on it. *)
Record Error := { err_Request : N; err_Message : string }.
Definition Error_Error (e : Error) : string := err_Message e.
Definition Error_RequestID (e : Error) : N := err_Request e.

(** Modelled from the spec: the typed replies, declared outside
    [emitter.go]; each carries a request id, and [emitter.go] reads the
    fields [Key], [Channel] and [ID]. *)
Record keyGenResponse := { kg_Request : N; Key : string }.
Record Link := { link_Request : N; link_Name : string; Channel : string }.
Record meResponse := { me_Request : N; me_ID : string }.

(** Modelled from the spec: the presence event, declared outside
    [emitter.go]; the dispatcher decodes it and hands it to the presence
    callback. *)
Record PresenceEvent := { presence_data : string }.

(** A value of the [Response] interface, by dynamic type. *)
Inductive Response :=
| RError (e : Error)
| RKeyGen (r : keyGenResponse)
| RLink (l : Link)
| RMe (r : meResponse).

Definition RequestID (r : Response) : N :=
  match r with
  | RError e => Error_RequestID e
  | RKeyGen r => kg_Request r
  | RLink l => link_Request l
  | RMe r => me_Request r
  end.

(** A value of Go's [error] interface as the client can return it. *)
Inductive error :=
| ErrTimeout                   (* emitter: operation has timed out *)
| ErrUnmarshal                 (* emitter: unable to unmarshal the response *)
| ErrTransport (msg : string)  (* the transport token's [Error()] *)
| ErrService (e : Error).      (* an [*Error] sent by the service *)

(** The requests [request] marshals, with the fields [emitter.go] sets
    (the two struct types are declared outside it); [ReqNil] is the
    [nil] of [ID]. *)
Record keygenRequest :=
  { kreq_Key : string; kreq_Channel : string; kreq_Type : string;
    kreq_TTL : Z }.
Record linkRequest :=
  { lreq_Name : string; lreq_Key : string; lreq_Channel : string;
    lreq_Subscribe : bool; lreq_Private : bool }.
Inductive Request :=
| ReqNil
| ReqKeygen (r : keygenRequest)
| ReqLink (r : linkRequest).

(** [encoding/json], external to the package: one decoder per target
    type ([None] is a non-nil [err]) and the encoder of requests. *)
Class Codec := {
  decodeError : string → option Error;
  decodePresence : string → option PresenceEvent;
  decodeKeyGen : string → option keyGenResponse;
  decodeLink : string → option Link;
  decodeMe : string → option meResponse;
  Marshal : Request → option string
}.

(** [json.Unmarshal(payload, &resp)] for [resp] of interface type
    [Response]: the target is the value [resp] already holds. *)
Definition Unmarshal `{Codec} (payload : string) (resp : Response)
  : option Response :=
  match resp with
  | RError _ => RError <$> decodeError payload
  | RKeyGen _ => RKeyGen <$> decodeKeyGen payload
  | RLink _ => RLink <$> decodeLink payload
  | RMe _ => RMe <$> decodeMe payload
  end.

Definition new_keyGenResponse : Response :=
  RKeyGen {| kg_Request := 0; Key := "" |}.
Definition new_Link : Response :=
  RLink {| link_Request := 0; link_Name := ""; Channel := "" |}.
Definition new_meResponse : Response :=
  RMe {| me_Request := 0; me_ID := "" |}.

(** The token of a transport operation: the message id of a publish,
    the delay after which the operation completes (never, for [None])
    and the error it completes with. *)
Record Token :=
  { MessageID : N; completes : option Z; token_Error : option string }.

(** [t.WaitTimeout(d)]: whether the operation completes within [d]. *)
Definition WaitTimeout (t : Token) (d : Z) : bool :=
  match completes t with
  | Some delay => (delay <? d)%Z
  | None => false
  end.

(** ** The topic registry *)

Module Trie.

(** Modelled from the spec: the [trie] type of the package (its file
    is not part of [emitter.go]), section 4.1: a segment-indexed
    structure holding, per pattern, the callbacks in registration
    order. *)
Inductive node :=
| Node (hs : list MessageHandler) (cs : list (string * node)).

Definition node_handlers (n : node) : list MessageHandler :=
  match n with Node hs _ => hs end.
Definition node_children (n : node) : list (string * node) :=
  match n with Node _ cs => cs end.

Definition trie := node.

(** Modelled from the spec: [newTrie()], the empty registry. *)
Definition newTrie : trie := Node [] [].

Fixpoint child (seg : string) (cs : list (string * node)) : option node :=
  match cs with
  | [] => None
  | (k, c) :: cs' => if String.eqb k seg then Some c else child seg cs'
  end.

(** Update the child under [seg] with [f], creating it when absent. *)
Fixpoint upsert (seg : string) (f : node → node)
         (cs : list (string * node)) : list (string * node) :=
  match cs with
  | [] => [ (seg, f newTrie) ]
  | (k, c) :: cs' =>
      if String.eqb k seg then (k, f c) :: cs'
      else (k, c) :: upsert seg f cs'
  end.

(** Update the child under [seg] with [f] when there is one. *)
Fixpoint update (seg : string) (f : node → node)
         (cs : list (string * node)) : list (string * node) :=
  match cs with
  | [] => []
  | (k, c) :: cs' =>
      if String.eqb k seg then (k, f c) :: cs'
      else (k, c) :: update seg f cs'
  end.

Fixpoint add (path : list string) (h : MessageHandler) (n : node)
  : node :=
  match path with
  | [] => Node (node_handlers n ++ [ h ]) (node_children n)
  | seg :: rest =>
      Node (node_handlers n) (upsert seg (add rest h) (node_children n))
  end.

Fixpoint remove (path : list string) (n : node) : node :=
  match path with
  | [] => Node [] (node_children n)
  | seg :: rest =>
      Node (node_handlers n) (update seg (remove rest) (node_children n))
  end.

Definition from (o : option node) (f : node → list MessageHandler)
  : list MessageHandler :=
  match o with Some c => f c | None => [] end.

(** The walk of [Lookup]: at each level the exact child, then the
    single-level wildcard child, then the multi-level wildcard child,
    which ends the walk. *)
Fixpoint lookup (query : list string) (n : node) : list MessageHandler :=
  match query with
  | [] => node_handlers n
  | seg :: rest =>
      from (child seg (node_children n)) (lookup rest)
      ++ from (child "+" (node_children n)) (lookup rest)
      ++ from (child "#" (node_children n)) node_handlers
  end.

(** The callbacks bound to the pattern with segments [path]. *)
Fixpoint bound (path : list string) (n : node) : list MessageHandler :=
  match path with
  | [] => node_handlers n
  | seg :: rest => from (child seg (node_children n)) (bound rest)
  end.

(** Modelled from the spec: [AddHandler(pattern, callback)] appends
    the callback to the pattern's list, creating the entry. *)
Definition AddHandler (pattern : string) (h : MessageHandler) (t : trie)
  : trie := add (Split "/"%char pattern) h t.

(** Modelled from the spec: [RemoveHandler(pattern)] deletes all
    callbacks of that exact pattern; a no-op when there is none. *)
Definition RemoveHandler (pattern : string) (t : trie) : trie :=
  remove (Split "/"%char pattern) t.

(** Modelled from the spec: [Lookup(topic)], the callbacks of every
    pattern the topic matches. *)
Definition Lookup (topic : string) (t : trie) : list MessageHandler :=
  lookup (Split "/"%char topic) t.

(** Matching in the words of the specification: a segment of the
    pattern matches the same segment or, being [+], any one segment;
    [#] as the last segment matches whatever remains (one segment or
    more). *)
Fixpoint matches (pattern topic : list string) : bool :=
  match pattern, topic with
  | [], [] => true
  | p :: ps, t :: ts =>
      match ps with
      | [] => String.eqb p "#" || ((String.eqb p t || String.eqb p "+")
                                   && matches ps ts)
      | _ => (String.eqb p t || String.eqb p "+") && matches ps ts
      end
  | _, _ => false
  end.

Definition Matches (pattern topic : string) : bool :=
  matches (Split "/"%char pattern) (Split "/"%char topic).

(** The registry operations the client performs, and the registry
    they build from the empty one. *)
Inductive op :=
| OpAdd (pattern : string) (h : MessageHandler)
| OpRemove (pattern : string).

Definition apply_op (t : trie) (o : op) : trie :=
  match o with
  | OpAdd pattern h => AddHandler pattern h t
  | OpRemove pattern => RemoveHandler pattern t
  end.

Definition run (ops : list op) : trie := fold_left apply_op ops newTrie.

(** The bindings in the words of the specification: the (pattern,
    callback) pairs in registration order, a removal deleting every
    pair of that exact pattern. *)
Definition bind_op (bs : list (string * MessageHandler)) (o : op)
  : list (string * MessageHandler) :=
  match o with
  | OpAdd pattern h => bs ++ [ (pattern, h) ]
  | OpRemove pattern =>
      filter (λ b, Split "/"%char b.1 ≠ Split "/"%char pattern) bs
  end.

Definition bindings (ops : list op) : list (string * MessageHandler) :=
  fold_left bind_op ops [].

End Trie.

(** ** The correlation store *)

Module Store.

(** Modelled from the spec: the [store] type of the package (declared
    outside [emitter.go]), section 4.2: a map from the request id to a
    one-shot slot.  A slot is a Go channel of capacity one: [slots]
    maps the pending ids to their channel, [buffer] holds the value
    sent on a channel and not yet received, [fresh] names the next
    channel to make. *)
Record store := {
  slots : gmap N nat;
  buffer : gmap nat Response;
  fresh : nat
}.

Definition empty : store :=
  {| slots := ∅; buffer := ∅; fresh := 0 |}.

(** Modelled from the spec: [PutCallback(requestID)] registers a new
    one-shot slot for the id (a still-open one is overwritten) and
    returns the channel to wait on. *)
Definition PutCallback (id : N) (s : store) : nat * store :=
  (fresh s,
   {| slots := <[ id := fresh s ]> (slots s);
      buffer := delete (fresh s) (buffer s);
      fresh := S (fresh s) |}).

(** Modelled from the spec: [NotifyResponse(requestID, response)]
    fills the slot of the id and removes it from the map, returning
    true; without a slot it returns false and changes nothing. *)
Definition NotifyResponse (id : N) (response : Response) (s : store)
  : bool * store :=
  match slots s !! id with
  | Some ch =>
      (true,
       {| slots := delete id (slots s);
          buffer := <[ ch := response ]> (buffer s);
          fresh := fresh s |})
  | None => (false, s)
  end.

(** The receive [<-ch]: the value sent on the channel, taken out of
    it; [None] while nothing was sent. *)
Definition receive (ch : nat) (s : store) : option (Response * store) :=
  match buffer s !! ch with
  | Some r =>
      Some (r, {| slots := slots s;
                  buffer := delete ch (buffer s);
                  fresh := fresh s |})
  | None => None
  end.

End Store.

(** ** The client and its world *)

Record Client := {
  guid : string;                         (* Emiter's client ID *)
  store : Store.store;                   (* In-flight requests store *)
  handlers : Trie.trie;                  (* The registry for handlers *)
  timeout : Z;                           (* Default timeout *)
  message : option MessageHandler;       (* User-defined message handler *)
  connect : option ConnectHandler;       (* User-defined connect handler *)
  disconnect : option DisconnectHandler; (* User-defined disconnect handler *)
  presence : option PresenceHandler;     (* User-defined presence handler *)
  errors : option ErrorHandler           (* User-defined error handler *)
}.

Definition set_guid (g : string) (c : Client) : Client :=
  {| guid := g; store := store c; handlers := handlers c;
     timeout := timeout c; message := message c; connect := connect c;
     disconnect := disconnect c; presence := presence c;
     errors := errors c |}.

Definition set_store (s : Store.store) (c : Client) : Client :=
  {| guid := guid c; store := s; handlers := handlers c;
     timeout := timeout c; message := message c; connect := connect c;
     disconnect := disconnect c; presence := presence c;
     errors := errors c |}.

Definition set_handlers (t : Trie.trie) (c : Client) : Client :=
  {| guid := guid c; store := store c; handlers := t;
     timeout := timeout c; message := message c; connect := connect c;
     disconnect := disconnect c; presence := presence c;
     errors := errors c |}.

(** [OnMessage], [OnPresence], [OnError]: the setters of the callbacks. *)
Definition OnMessage (h : option MessageHandler) (c : Client) : Client :=
  {| guid := guid c; store := store c; handlers := handlers c;
     timeout := timeout c; message := h; connect := connect c;
     disconnect := disconnect c; presence := presence c;
     errors := errors c |}.

Definition OnPresence (h : option PresenceHandler) (c : Client) : Client :=
  {| guid := guid c; store := store c; handlers := handlers c;
     timeout := timeout c; message := message c; connect := connect c;
     disconnect := disconnect c; presence := h; errors := errors c |}.

Definition OnError (h : option ErrorHandler) (c : Client) : Client :=
  {| guid := guid c; store := store c; handlers := handlers c;
     timeout := timeout c; message := message c; connect := connect c;
     disconnect := disconnect c; presence := presence c; errors := h |}.

(** [NewClient()] without options: a timeout of 60 seconds (in
    nanoseconds), a new store and an empty registry. *)
Definition NewClient : Client :=
  {| guid := ""; store := Store.empty; handlers := Trie.newTrie;
     timeout := (60 * 1000000000)%Z; message := None; connect := None;
     disconnect := None; presence := None; errors := None |}.

(** What the client does to the outside: calls of user callbacks, log
    lines and transport operations, in order. *)
Inductive effect :=
| CallMessage (h : MessageHandler) (m : Message)
| CallPresence (h : PresenceHandler) (ev : PresenceEvent)
| CallError (h : ErrorHandler) (e : Error)
| LogPrintln (line : string)
| ConnPublish (topic : string) (qos : N) (retained : bool) (payload : string)
| ConnSubscribe (topic : string) (qos : N)
| ConnUnsubscribe (topic : string).

Record World := { client : Client; log : list effect }.

(** The outcome of a call: it returns, it never returns (a receive on a
    channel nothing is sent on), or it panics. *)
Inductive Result (A : Type) :=
| Done (a : A) (w : World)
| Blocked
| Panic (msg : string).
Arguments Done {A} a w.
Arguments Blocked {A}.
Arguments Panic {A} msg.

Definition M (A : Type) : Type := World → Result A.

Definition ret {A} (a : A) : M A := fun w => Done a w.

Definition bind {A B} (m : M A) (f : A → M B) : M B :=
  fun w =>
    match m w with
    | Done a w' => f a w'
    | Blocked => Blocked
    | Panic msg => Panic msg
    end.

Notation "'let*' x ':=' m 'in' k" := (bind m (fun x => k))
  (at level 10, x name, m at level 100, k at level 200).
Notation "m ';;;' k" := (bind m (fun _ => k))
  (at level 100, k at level 200, right associativity).

Definition get_client : M Client := fun w => Done (client w) w.

Definition modify_client (f : Client → Client) : M unit :=
  fun w => Done tt {| client := f (client w); log := log w |}.

Definition emit (e : effect) : M unit :=
  fun w => Done tt {| client := client w; log := log w ++ [ e ] |}.

Definition panic {A} (msg : string) : M A := fun _ => Panic msg.

(** [c.store.NotifyResponse(id, response)] on the store of the client. *)
Definition notify (id : N) (response : Response) : M bool :=
  fun w =>
    let '(ok, s) := Store.NotifyResponse id response (store (client w)) in
    Done ok {| client := set_store s (client w); log := log w |}.

(** [c.store.PutCallback(id)]. *)
Definition put_callback (id : N) : M nat :=
  fun w =>
    let '(ch, s) := Store.PutCallback id (store (client w)) in
    Done ch {| client := set_store s (client w); log := log w |}.

(** [for _, h := range handlers { h(c, m) }]. *)
Fixpoint call_each (hs : list MessageHandler) (m : Message) : M unit :=
  match hs with
  | [] => ret tt
  | h :: rest => emit (CallMessage h m) ;;; call_each rest m
  end.

(** ** The dispatcher *)

Section Dispatcher.
Context `{Codec}.

(** [onResponse(m, resp)]: the error envelope first, then the typed
    response [resp] stands for. *)
Definition onResponse (m : Message) (resp : Response) : M bool :=
  let errResponse :=
    match decodeError (Payload m) with
    | Some e => if negb (String.eqb (Error_Error e) "") then Some e else None
    | None => None
    end in
  match errResponse with
  | Some e => notify (Error_RequestID e) (RError e)
  | None =>
      match Unmarshal (Payload m) resp with
      | Some resp' =>
          if (0 <? RequestID resp')%N
          then notify (RequestID resp') resp'
          else ret false
      | None => ret false
      end
  end.

(** [onError(m)]. *)
Definition onError (m : Message) : M unit :=
  match decodeError (Payload m) with
  | None => ret tt
  | Some resp =>
      let* c := get_client in
      (match errors c with
       | None => emit (LogPrintln ("emitter: " +:+ Error_Error resp))
       | Some _ => ret tt
       end) ;;;
      match errors c with
      | Some h =>
          let* delivered := notify (Error_RequestID resp) (RError resp) in
          if negb delivered then emit (CallError h resp) else ret tt
      | None => ret tt
      end
  end.

(** The [switch] of [onMessage]: the first case that holds. *)
Definition onAdministrative (m : Message) : M unit :=
  let* c := get_client in
  match presence c, HasPrefix (Topic m) "emitter/presence/" with
  | Some h, true =>
      match decodePresence (Payload m) with
      | Some response => emit (CallPresence h response)
      | None => ret tt
      end
  | _, _ =>
      if HasPrefix (Topic m) "emitter/error/" then onError m
      else if HasPrefix (Topic m) "emitter/keygen/"
      then onResponse m new_keyGenResponse ;;; ret tt
      else if HasPrefix (Topic m) "emitter/link/"
      then onResponse m new_Link ;;; ret tt
      else if HasPrefix (Topic m) "emitter/me/"
      then onResponse m new_meResponse ;;; ret tt
      else ret tt
  end.

(** [onMessage(_, m)]: the entry point of every inbound message. *)
Definition onMessage (m : Message) : M unit :=
  let* c := get_client in
  match message c, HasPrefix (Topic m) "emitter/" with
  | Some default, false =>
      let hs := Trie.Lookup (Topic m) (handlers c) in
      (if (length hs =? 0)%nat
       then emit (CallMessage default m)
       else ret tt) ;;;
      call_each hs m
  | _, _ => onAdministrative m
  end.

(** The dispatch context handling a run of inbound messages. *)
Fixpoint dispatch (inbound : list Message) : M unit :=
  match inbound with
  | [] => ret tt
  | m :: rest => onMessage m ;;; dispatch rest
  end.

(** ** Blocking calls *)

(** [do(t)]: wait for the operation, at most the timeout of the
    client. *)
Definition do (t : Token) : M (option error) :=
  let* c := get_client in
  if negb (WaitTimeout t (timeout c)) then ret (Some ErrTimeout)
  else ret (ErrTransport <$> token_Error t).

(** The receive [<-ch] in [request].  The caller is parked on the
    channel while the dispatch context handles [inbound]; the receive
    returns the value then found in the channel and never returns when
    there is none. *)
Definition await (ch : nat) (inbound : list Message) : M Response :=
  dispatch inbound ;;;
  fun w =>
    match Store.receive ch (store (client w)) with
    | Some (r, s) =>
        Done r {| client := set_store s (client w); log := log w |}
    | None => Blocked
    end.

(** [request(operation, req)].  [tok] is the token the transport
    answers the publish with, [inbound] what arrives while the caller
    waits for the reply. *)
Definition request (operation : string) (req : Request)
           (tok : Token) (inbound : list Message)
  : M (option Response * option error) :=
  match Marshal req with
  | None => panic "unable to encode the request"
  | Some request =>
      emit (ConnPublish ("emitter/" +:+ operation +:+ "/") 1 false request) ;;;
      let* ch := put_callback (MessageID tok) in
      let* resp := await ch inbound in
      let* err := do tok in
      match err with
      | Some e => ret (None, Some e)
      | None =>
          match resp with
          | RError e => ret (None, Some (ErrService e))
          | _ => ret (Some resp, None)
          end
      end
  end.

(** [ID()]. *)
Definition ID (tok : Token) (inbound : list Message) : M string :=
  let* c := get_client in
  if negb (String.eqb (guid c) "") then ret (guid c)
  else
    let* r := request "me" ReqNil tok inbound in
    (match r with
     | (Some (RMe result), None) => modify_client (set_guid (me_ID result))
     | _ => ret tt
     end) ;;;
    let* c' := get_client in
    ret (guid c').

(** [GenerateKey(key, channel, permissions, ttl)]. *)
Definition GenerateKey (key channel permissions : string) (ttl : Z)
           (tok : Token) (inbound : list Message)
  : M (string * option error) :=
  let* r := request "keygen"
              (ReqKeygen {| kreq_Key := key; kreq_Channel := channel;
                            kreq_Type := permissions; kreq_TTL := ttl |})
              tok inbound in
  match r with
  | (_, Some err) => ret ("", Some err)
  | (Some (RKeyGen result), None) => ret (Key result, None)
  | (_, None) => ret ("", Some ErrUnmarshal)
  end.

End Dispatcher.

Section Links.
Context `{Codec} {Option : Type} `{Stringer Option}.

(** The common body of [CreatePrivateLink] and [CreateLink], which
    differ in the [Private] field of the request only. *)
Definition createLink (private : bool) (key channel name : string)
           (optionalHandler : option MessageHandler)
           (options : list Option)
           (tok : Token) (inbound : list Message)
  : M (option Link * option error) :=
  let* r := request "link"
              (ReqLink {| lreq_Name := name; lreq_Key := key;
                          lreq_Channel := formatTopic "" channel options;
                          lreq_Subscribe :=
                            bool_decide (is_Some optionalHandler);
                          lreq_Private := private |})
              tok inbound in
  match r with
  | (_, Some err) => ret (None, Some err)
  | (Some (RLink result), None) =>
      (match optionalHandler with
       | Some h =>
           modify_client
             (fun c => set_handlers
                         (Trie.AddHandler (Channel result) h (handlers c)) c)
       | None => ret tt
       end) ;;;
      ret (Some result, None)
  | (_, None) => ret (None, Some ErrUnmarshal)
  end.

(** [CreatePrivateLink(key, channel, name, optionalHandler,
    options...)]. *)
Definition CreatePrivateLink := createLink true.

(** [CreateLink(key, channel, name, optionalHandler, options...)]. *)
Definition CreateLink := createLink false.

(** [Subscribe(key, channel, optionalHandler, options...)]; [tok] is
    the token of the transport subscribe. *)
Definition Subscribe (key channel : string)
           (optionalHandler : option MessageHandler)
           (options : list Option) (tok : Token) : M (option error) :=
  (match optionalHandler with
   | Some h =>
       modify_client
         (fun c => set_handlers (Trie.AddHandler channel h (handlers c)) c)
   | None => ret tt
   end) ;;;
  emit (ConnSubscribe (formatTopic key channel options) 0) ;;;
  do tok.

(** [Unsubscribe(key, channel)]. *)
Definition Unsubscribe (key channel : string) (tok : Token)
  : M (option error) :=
  modify_client
    (fun c => set_handlers (Trie.RemoveHandler channel (handlers c)) c) ;;;
  emit (ConnUnsubscribe (formatTopic key channel ([] : list Option))) ;;;
  do tok.

End Links.

(** ** The other calls of the client *)

(** The option makers [WithTTL] and [WithLast] the client calls; they
    are declared outside [emitter.go] and only their result is used, as
    an [Option]. *)
Class OptionMakers (Option : Type) := {
  WithTTL : Z → Option;
  WithLast : Z → Option
}.

Section Publishing.
Context {Option : Type} `{Stringer Option} `{OptionMakers Option}.

(** [Publish(key, channel, payload, options...)]; [tok] is the token of
    the transport publish. *)
Definition Publish (key channel payload : string) (options : list Option)
           (tok : Token) : M (option error) :=
  emit (ConnPublish (formatTopic key channel options) 0 false payload) ;;;
  do tok.

(** [PublishWithTTL(key, channel, payload, ttl)]. *)
Definition PublishWithTTL (key channel payload : string) (ttl : Z)
           (tok : Token) : M (option error) :=
  Publish key channel payload [ WithTTL ttl ] tok.

(** [PublishWithLink(name, payload)]. *)
Definition PublishWithLink (name payload : string) (tok : Token)
  : M (option error) :=
  emit (ConnPublish name 0 false payload) ;;; do tok.

(** [SubscribeWithHistory(key, channel, last, optionalHandler)]. *)
Definition SubscribeWithHistory (key channel : string) (last : Z)
           (optionalHandler : option MessageHandler) (tok : Token)
  : M (option error) :=
  Subscribe key channel optionalHandler [ WithLast last ] tok.

End Publishing.

(** The request [Presence] marshals; the struct type is declared outside
    [emitter.go], the fields are the ones [Presence] sets. *)
Record presenceRequest := {
  preq_Key : string;
  preq_Channel : string;
  preq_Status : bool;
  preq_Changes : bool
}.

(** [json.Marshal] of a presence request: the bytes, or the text of the
    error. *)
Class PresenceEncoder := MarshalPresence : presenceRequest → string + string.

(** What [Presence] returns: nil, the error of [json.Marshal], or the
    error of [do]. *)
Inductive presence_error :=
| MarshalError (msg : string)
| DoError (e : error).

(** [Presence(key, channel, status, changes)]. *)
Definition Presence `{PresenceEncoder} (key channel : string)
           (status changes : bool) (tok : Token)
  : M (option presence_error) :=
  match MarshalPresence {| preq_Key := key; preq_Channel := channel;
                           preq_Status := status;
                           preq_Changes := changes |} with
  | inr err => ret (Some (MarshalError err))
  | inl req =>
      emit (ConnPublish "emitter/presence/" 1 false req) ;;;
      let* e := do tok in
      ret (DoError <$> e)
  end.

(** The conversion [uint(z)] for a [uint] of [bits] bits. *)
Definition uint (bits : Z) (z : Z) : Z := z mod 2 ^ bits.

(** The argument [Disconnect(waitTime)] hands to the transport:
    [uint(waitTime.Nanoseconds() / 1000000)], the division of Go
    truncating towards zero. *)
Definition Disconnect_quiesce (bits : Z) (waitTime : Z) : Z :=
  uint bits (waitTime ÷ 1000000).


(** What a call returned, when it did. *)
Definition returned {A} (r : Result A) : option A :=
  match r with
  | Done a _ => Some a
  | Blocked | Panic _ => None
  end.

(** The world a call left, when it returned. *)
Definition world_after {A} (r : Result A) : option World :=
  match r with
  | Done _ w => Some w
  | Blocked | Panic _ => None
  end.

(** What [do(t)] returns for a client with timeout [d]. *)
Definition do_result (t : Token) (d : Z) : option error :=
  if negb (WaitTimeout t d) then Some ErrTimeout
  else ErrTransport <$> token_Error t.

(** What [request] returns once the reply [resp] was received, for a
    client with timeout [d]: the two tests after the receive. *)
Definition request_outcome (t : Token) (d : Z) (resp : Response)
  : option Response * option error :=
  match do_result t d with
  | Some e => (None, Some e)
  | None =>
      match resp with
      | RError e => (None, Some (ErrService e))
      | _ => (Some resp, None)
      end
  end.

(** What the dispatch context may do to the world: append to the log
    and resolve pending requests; the rest of the client stays. *)
Record dispatched (w w' : World) : Prop := {
  d_guid : guid (client w') = guid (client w);
  d_handlers : handlers (client w') = handlers (client w);
  d_timeout : timeout (client w') = timeout (client w);
  d_message : message (client w') = message (client w);
  d_presence : presence (client w') = presence (client w);
  d_errors : errors (client w') = errors (client w);
  d_fresh :
    Store.fresh (store (client w')) = Store.fresh (store (client w));
  d_log : ∃ es, log w' = (log w ++ es)%list;
  d_slots :
    ∀ k, Store.slots (store (client w)) !! k = None →
         Store.slots (store (client w')) !! k = None
}.

(** The world in which the caller of [request] is parked on its
    channel: the request published, the slot registered. *)
Definition parked (operation payload : string) (t : Token) (w : World)
  : World :=
  {| client :=
       set_store (Store.PutCallback (MessageID t) (store (client w))).2
                 (client w);
     log := log w
            ++ [ ConnPublish ("emitter/" +:+ operation +:+ "/") 1 false
                             payload ] |}.

(** ** Sample traffic

    A codec defined on the payloads of the examples below, answering on
    each as [encoding/json] does: a field the target type lacks is
    ignored, a field the payload lacks stays zero, and text that is not
    JSON is an error for every target.  The payloads are written
    without the quotation marks of JSON. *)

Module Sample.

Definition keygen_reply : string :=
  "{req:7,status:200,key:K1}".
Definition link_reply : string :=
  "{req:7,name:l1,channel:a/b/}".
Definition me_reply : string :=
  "{req:7,id:client-1}".
Definition error_reply : string :=
  "{req:7,status:401,message:unauthorized}".
Definition error_push : string :=
  "{status:500,message:boom}".
Definition garbled : string := "<html>".

Definition same (a b : string) : bool := String.eqb a b.

#[export] Instance codec : Codec := {|
  decodeError p :=
    if same p error_reply
    then Some {| err_Request := 7; err_Message := "unauthorized" |}
    else if same p error_push
    then Some {| err_Request := 0; err_Message := "boom" |}
    else if same p keygen_reply || same p link_reply || same p me_reply
    then Some {| err_Request := 7; err_Message := "" |}
    else None;
  decodePresence p := None;
  decodeKeyGen p :=
    if same p keygen_reply then Some {| kg_Request := 7; Key := "K1" |}
    else if same p link_reply || same p me_reply || same p error_reply
    then Some {| kg_Request := 7; Key := "" |}
    else if same p error_push then Some {| kg_Request := 0; Key := "" |}
    else None;
  decodeLink p :=
    if same p link_reply
    then Some {| link_Request := 7; link_Name := "l1"; Channel := "a/b/" |}
    else if same p keygen_reply || same p me_reply || same p error_reply
    then Some {| link_Request := 7; link_Name := ""; Channel := "" |}
    else if same p error_push
    then Some {| link_Request := 0; link_Name := ""; Channel := "" |}
    else None;
  decodeMe p :=
    if same p me_reply then Some {| me_Request := 7; me_ID := "client-1" |}
    else if same p keygen_reply || same p link_reply || same p error_reply
    then Some {| me_Request := 7; me_ID := "" |}
    else if same p error_push then Some {| me_Request := 0; me_ID := "" |}
    else None;
  Marshal r :=
    match r with
    | ReqNil => Some "null"
    | ReqKeygen _ => Some "{type:keygen}"
    | ReqLink _ => Some "{type:link}"
    end
|}.

(** Options as the package builds them: the text itself. *)
#[export] Instance option_string : Stringer string := fun s => s.

(** A token acknowledged after one millisecond, with message id 7. *)
Definition acked : Token :=
  {| MessageID := 7; completes := Some 1000000%Z; token_Error := None |}.

(** A token that is never acknowledged. *)
Definition unacked : Token :=
  {| MessageID := 7; completes := None; token_Error := None |}.

(** A token the transport failed at once, without a message id. *)
Definition failed : Token :=
  {| MessageID := 0; completes := Some 0%Z;
     token_Error := Some "not Connected" |}.

(** A new client with default-message callback 100 and error callback
    200, and one without callbacks. *)
Definition c0 : Client := OnError (Some 200) (OnMessage (Some 100) NewClient).
Definition w0 : World := {| client := c0; log := [] |}.
Definition w_bare : World := {| client := NewClient; log := [] |}.

Definition keygen_msg : Message :=
  {| Topic := "emitter/keygen/"; Payload := keygen_reply |}.
Definition link_msg : Message :=
  {| Topic := "emitter/link/"; Payload := link_reply |}.
Definition me_msg : Message :=
  {| Topic := "emitter/me/"; Payload := me_reply |}.
Definition refusal_msg : Message :=
  {| Topic := "emitter/keygen/"; Payload := error_reply |}.
Definition garbled_msg : Message :=
  {| Topic := "emitter/keygen/"; Payload := garbled |}.
Definition data_msg : Message := {| Topic := "a/b/c"; Payload := "hello" |}.
Definition stray_msg : Message := {| Topic := "x/y"; Payload := "hello" |}.

(** The sample client after [Subscribe] of handler 1 on a/+/c. *)
Definition w_subscribed : World :=
  {| client := set_handlers (Trie.AddHandler "a/+/c" 1 Trie.newTrie) c0;
     log := [] |}.

(** The same registry on a client without a default-message handler. *)
Definition w_no_default : World :=
  {| client := set_handlers (Trie.AddHandler "a/+/c" 1 Trie.newTrie)
                            NewClient;
     log := [] |}.

End Sample.

(** ** More sample traffic *)

Module MoreSample.

Definition presence_reply : string := "{event:status,channel:a/}".

(** A codec that knows the presence reply only. *)
Definition presence_codec : Codec := {|
  decodeError p := None;
  decodePresence p :=
    if String.eqb p presence_reply
    then Some {| presence_data := "status a/" |}
    else None;
  decodeKeyGen p := None;
  decodeLink p := None;
  decodeMe p := None;
  Marshal r := Some "null"
|}.

Definition presence_encoder : PresenceEncoder :=
  fun r => inl ("{key:" +:+ preq_Key r +:+ ",channel:" +:+ preq_Channel r
                +:+ "}").

Definition option_makers : OptionMakers string := {|
  WithTTL ttl := "ttl=" +:+ pretty ttl;
  WithLast last := "last=" +:+ pretty last
|}.

Definition presence_msg : Message :=
  {| Topic := "emitter/presence/"; Payload := presence_reply |}.
Definition error_for_7 : Message :=
  {| Topic := "emitter/error/"; Payload := Sample.error_reply |}.
Definition other_reply : Message :=
  {| Topic := "emitter/keygen/"; Payload := Sample.keygen_reply |}.

(** A token acknowledged at once, with message id 9. *)
Definition acked9 : Token :=
  {| MessageID := 9; completes := Some 0%Z; token_Error := None |}.

(** The sample client with presence callback 300. *)
Definition w_presence : World :=
  {| client := OnPresence (Some 300) Sample.c0; log := [] |}.

(** The world a sample run left. *)
Definition left_by {A} (r : Result A) : World :=
  match r with
  | Done _ w => w
  | Blocked | Panic _ => Sample.w_bare
  end.

(** The sample client with a caller parked under message id 7, and with
    one parked under message id 0 (the token of a publish the transport
    failed at once). *)
Definition w_parked : World :=
  parked "keygen" "{type:keygen}" Sample.acked Sample.w0.
Definition w_parked_zero : World :=
  parked "keygen" "{type:keygen}" Sample.failed Sample.w0.

(** A typed reply and an error envelope without a request id. *)
Definition push_reply : Message :=
  {| Topic := "emitter/keygen/"; Payload := Sample.error_push |}.

(** A codec for which the payload of [push_reply] is a typed reply
    without request id and no error envelope. *)
Definition typed_zero_codec : Codec := {|
  decodeError p := None;
  decodePresence p := None;
  decodeKeyGen p := Some {| kg_Request := 0; Key := "K0" |};
  decodeLink p := None;
  decodeMe p := None;
  Marshal r := Some "null"
|}.

End MoreSample.

(** * Properties *)

(** ** Strings *)

Lemma append_cons (c : ascii) (s t : string) :
  String c s +:+ t = String c (s +:+ t).
Proof. reflexivity. Qed.

Lemma append_nil_r (s : string) : s +:+ "" = s.
Proof.
  induction s as [| c s IH]; [reflexivity | now rewrite append_cons, IH].
Qed.

Lemma append_assoc (s1 s2 s3 : string) :
  (s1 +:+ s2) +:+ s3 = s1 +:+ (s2 +:+ s3).
Proof.
  induction s1 as [| c s1 IH]; [reflexivity |].
  now rewrite !append_cons, IH.
Qed.

(** A string with prefix [p] is [p] followed by something. *)
Lemma prefix_split (p s : string) :
  String.prefix p s = true → ∃ r, s = p +:+ r.
Proof.
  revert s. induction p as [| c p IH]; intros s Hp.
  - exists s. reflexivity.
  - destruct s as [| d s]; simpl in Hp; [discriminate |].
    destruct (ascii_dec c d) as [-> | _]; [| discriminate].
    destruct (IH _ Hp) as [r ->]. exists r. reflexivity.
Qed.

Lemma prefix_append (p r : string) : String.prefix p (p +:+ r) = true.
Proof.
  induction p as [| c p IH]; [now destruct r |].
  rewrite append_cons. simpl.
  destruct (ascii_dec c c); [exact IH | congruence].
Qed.

(** Every topic under one of the reserved sub-prefixes is under the
    reserved prefix. *)
Lemma reserved_prefix (topic sub : string) :
  HasPrefix topic ("emitter/" +:+ sub) = true →
  HasPrefix topic "emitter/" = true.
Proof.
  unfold HasPrefix. intros Hp. destruct (prefix_split _ _ Hp) as [r ->].
  rewrite append_assoc. apply prefix_append.
Qed.

Lemma not_reserved_sub (topic sub : string) :
  HasPrefix topic "emitter/" = false →
  HasPrefix topic ("emitter/" +:+ sub) = false.
Proof.
  intros Hn. destruct (HasPrefix topic ("emitter/" +:+ sub)) eqn:E; [| easy].
  apply reserved_prefix in E. congruence.
Qed.

(** ** The topic format *)

Section FormatTopicFacts.
Context {Option : Type} `{Stringer Option}.

(** The loop of [formatTopic] appends the options joined by [&]. *)
Lemma options_loop_join (rest : list Option) (n i : nat) (opts : string) :
  n = (i + length rest)%nat →
  options_loop n i rest opts = opts +:+ Join (map ToString rest) "&".
Proof.
  revert i opts. induction rest as [| o rest IH]; intros i opts Hn.
  - simpl. now rewrite append_nil_r.
  - cbn [options_loop]. destruct rest as [| o' rest].
    + assert ((i + 1 <? n)%nat = false) as ->
        by (apply Nat.ltb_ge; simpl in Hn; lia).
      reflexivity.
    + assert ((i + 1 <? n)%nat = true) as ->
        by (apply Nat.ltb_lt; simpl in Hn; lia).
      rewrite IH by (simpl in *; lia).
      change (Join (map ToString (o :: o' :: rest)) "&")
        with (ToString o +:+ "&" +:+ Join (map ToString (o' :: rest)) "&").
      now rewrite !append_assoc.
Qed.

Lemma formatTopic_query (options : list Option) :
  (if (0 <? length options)%nat
   then options_loop (length options) 0 options ("" +:+ "?")
   else "") = query_spec options.
Proof.
  destruct options as [| o rest]; [reflexivity |].
  change (0 <? length (o :: rest))%nat with true. cbv iota.
  now rewrite options_loop_join.
Qed.

(** C6.  For every key, channel and option list the topic produced is
    the cleaned key, a slash, the cleaned channel, a slash and the
    query, where the query is empty without options and otherwise [?]
    followed by the option strings joined by [&]; when the cleaned key
    is empty the key segment and its slash are left out.  (Cleaning
    removes one leading and one trailing slash.) *)
Theorem formatTopic_format (key channel : string) (options : list Option) :
  formatTopic key channel options =
    (if String.eqb (clean key) "" then "" else clean key +:+ "/")
    +:+ clean channel +:+ "/" +:+ query_spec options
  ∧ query_spec ([] : list Option) = ""
  ∧ (∀ o rest, query_spec (o :: rest)
               = "?" +:+ Join (map ToString (o :: rest)) "&").
Proof.
  split; [| split; [reflexivity | intros; reflexivity]].
  unfold formatTopic. rewrite formatTopic_query. fold (clean key).
  fold (clean channel). destruct (clean key) as [| c k] eqn:E.
  - reflexivity.
  - cbn [String.length Nat.eqb String.eqb]. now rewrite !append_assoc.
Qed.

End FormatTopicFacts.

(** ** The topic registry *)

Module TrieFacts.
Import Trie.

Ltac string_cases :=
  repeat match goal with
    | |- context [String.eqb ?a ?b] =>
        destruct (String.eqb_spec a b); subst; simpl
    end;
  repeat case_decide; subst; simpl; try congruence.

Lemma bound_newTrie (path : list string) : bound path newTrie = [].
Proof. destruct path; reflexivity. Qed.

Lemma child_upsert (seg seg' : string) (f : node → node) cs :
  child seg (upsert seg' f cs) =
    if decide (seg' = seg)
    then Some (f (default newTrie (child seg cs)))
    else child seg cs.
Proof.
  induction cs as [| [k c] cs IH]; simpl; [now string_cases |].
  destruct (String.eqb_spec k seg'); subst; simpl; [now string_cases |].
  destruct (String.eqb_spec k seg); subst; simpl; [now string_cases |].
  exact IH.
Qed.

Lemma child_update (seg seg' : string) (f : node → node) cs :
  child seg (update seg' f cs) =
    if decide (seg' = seg) then f <$> child seg cs else child seg cs.
Proof.
  induction cs as [| [k c] cs IH]; simpl; [now string_cases |].
  destruct (String.eqb_spec k seg'); subst; simpl; [now string_cases |].
  destruct (String.eqb_spec k seg); subst; simpl; [now string_cases |].
  exact IH.
Qed.

(** Adding a callback appends it to the list of its own pattern and
    leaves every other pattern alone. *)
Lemma bound_add (path' : list string) (h' : MessageHandler) :
  ∀ path n,
    bound path (add path' h' n) =
      (bound path n ++ (if decide (path = path') then [ h' ] else []))%list.
Proof.
  induction path' as [| s' r' IH]; intros path [hs cs].
  - destruct path as [| seg rest]; simpl; [reflexivity |].
    now rewrite app_nil_r.
  - destruct path as [| seg rest]; simpl; [now rewrite app_nil_r |].
    rewrite child_upsert. destruct (decide (s' = seg)) as [-> | Hne].
    + simpl. rewrite IH.
      destruct (child seg cs) as [c |]; simpl.
      * destruct (decide (rest = r')) as [-> | Hr].
        -- now rewrite decide_True.
        -- now rewrite decide_False by congruence.
      * rewrite bound_newTrie.
        destruct (decide (rest = r')) as [-> | Hr].
        -- now rewrite decide_True.
        -- now rewrite decide_False by congruence.
    + rewrite decide_False by congruence. now rewrite app_nil_r.
Qed.

(** Removing a pattern empties its list and leaves the others. *)
Lemma bound_remove (path' : list string) :
  ∀ path n,
    bound path (remove path' n) =
      if decide (path = path') then [] else bound path n.
Proof.
  induction path' as [| s' r' IH]; intros path [hs cs].
  - destruct path as [| seg rest]; reflexivity.
  - destruct path as [| seg rest]; simpl; [reflexivity |].
    rewrite child_update. destruct (decide (s' = seg)) as [-> | Hne].
    + destruct (child seg cs) as [c |]; simpl.
      * rewrite IH. destruct (decide (rest = r')) as [-> | Hr].
        -- now rewrite decide_True.
        -- now rewrite decide_False by congruence.
      * now destruct (decide (seg :: rest = seg :: r')).
    + now rewrite decide_False by congruence.
Qed.

(** The walk returns exactly the callbacks of the paths that match. *)
Lemma lookup_matches (query : list string) :
  ∀ n h,
    h ∈ lookup query n ↔
    ∃ path, h ∈ bound path n ∧ matches path query = true.
Proof.
  induction query as [| seg rest IH]; intros [hs cs] h.
  - simpl. split.
    + intros Hin. exists []. split; [exact Hin | reflexivity].
    + intros [[| p ps] [Hin Hm]]; [exact Hin | discriminate].
  - cbn [lookup node_children]. rewrite !elem_of_app. split.
    + intros [Hin | [Hin | Hin]].
      * destruct (child seg cs) as [c |] eqn:Ec; simpl in Hin;
          [| now apply elem_of_nil in Hin].
        apply IH in Hin as (path & Hb & Hm). exists (seg :: path).
        split; [simpl; now rewrite Ec |].
        simpl. rewrite String.eqb_refl, Hm. simpl.
        destruct path; [now rewrite orb_true_r | reflexivity].
      * destruct (child "+" cs) as [c |] eqn:Ec; simpl in Hin;
          [| now apply elem_of_nil in Hin].
        apply IH in Hin as (path & Hb & Hm). exists ("+" :: path).
        split; [simpl; now rewrite Ec |].
        simpl. rewrite Hm, orb_true_r. simpl.
        destruct path; reflexivity.
      * exists [ "#" ]. split; [exact Hin | reflexivity].
    + intros ([| p ps] & Hb & Hm); [discriminate |].
      simpl in Hb. destruct (child p cs) as [c |] eqn:Ec; simpl in Hb;
        [| now apply elem_of_nil in Hb].
      assert (Hwalk : (String.eqb p seg || String.eqb p "+") = true
                      → matches ps rest = true
                      → h ∈ from (child seg cs) (lookup rest)
                        ∨ h ∈ from (child "+" cs) (lookup rest)
                        ∨ h ∈ from (child "#" cs) node_handlers).
      { intros Hp Hrest.
        assert (Hl : h ∈ lookup rest c) by (apply IH; eauto).
        apply orb_true_iff in Hp as [Hp | Hp];
          apply String.eqb_eq in Hp; subst p; rewrite Ec; simpl; auto. }
      simpl in Hm. destruct ps as [| p' ps'].
      * apply orb_true_iff in Hm as [Hm | Hm].
        -- apply String.eqb_eq in Hm. subst p. rewrite Ec. simpl.
           right. right. exact Hb.
        -- apply andb_true_iff in Hm as [Hp Hrest]. now apply Hwalk.
      * apply andb_true_iff in Hm as [Hp Hrest]. now apply Hwalk.
Qed.

(** A removal filters the bindings of its pattern out. *)
Lemma filter_removed (q path : list string)
      (bs : list (string * MessageHandler)) :
  (filter (λ b, Split "/"%char b.1 = path)
     (filter (λ b, Split "/"%char b.1 ≠ q) bs)).*2
  = if decide (path = q) then []
    else (filter (λ b, Split "/"%char b.1 = path) bs).*2.
Proof.
  induction bs as [| [p h] bs IH]; [now case_decide |].
  rewrite !filter_cons. cbn [fst].
  destruct (decide (Split "/"%char p ≠ q)) as [Hne | He].
  - rewrite filter_cons. cbn [fst].
    destruct (decide (Split "/"%char p = path)) as [Hp | Hp].
    + rewrite !fmap_cons, IH. subst path.
      destruct (decide (Split "/"%char p = q)); [congruence | reflexivity].
    + exact IH.
  - apply dec_stable in He.
    destruct (decide (Split "/"%char p = path)) as [Hp | Hp].
    + rewrite IH. destruct (decide (path = q)); [reflexivity | congruence].
    + exact IH.
Qed.

(** The registry refines the list of bindings: under every path it
    holds the callbacks bound to the patterns of that path, in
    registration order. *)
Lemma bound_run_from (ops : list op) :
  ∀ t bs,
    (∀ path, bound path t
             = (filter (λ b, Split "/"%char b.1 = path) bs).*2) →
    ∀ path,
      bound path (fold_left apply_op ops t)
      = (filter (λ b, Split "/"%char b.1 = path)
           (fold_left bind_op ops bs)).*2.
Proof.
  induction ops as [| o ops IH]; intros t bs Hinv; [exact Hinv |].
  simpl. apply IH. intros path. destruct o as [pattern h | pattern]; simpl.
  - unfold AddHandler. rewrite bound_add, Hinv, filter_app, fmap_app.
    f_equal. rewrite filter_cons, filter_nil. simpl.
    destruct (decide (Split "/"%char pattern = path)) as [<- | Hne].
    + now rewrite decide_True.
    + now rewrite decide_False by congruence.
  - unfold RemoveHandler. rewrite bound_remove, filter_removed.
    case_decide; [reflexivity | apply Hinv].
Qed.

Lemma bound_run (ops : list op) (path : list string) :
  bound path (run ops)
  = (filter (λ b, Split "/"%char b.1 = path) (bindings ops)).*2.
Proof.
  unfold run, bindings. apply bound_run_from. intros p.
  now rewrite bound_newTrie.
Qed.

(** C8.  In the registry built by any run of [AddHandler] and
    [RemoveHandler] calls, [Lookup] of a topic returns a callback exactly
    when the callback is bound to a pattern the topic matches: segment
    by segment, the same segment or the single-level wildcard, with the
    multi-level wildcard in last position matching what remains; at
    each level the walk considers the exact child first, then the
    single-level wildcard, then the multi-level one.  Pattern a/+/c
    matches a/b/c and not a/b/d/c;
    pattern a/# matches a/b and a/b/c/d. *)
Theorem Lookup_iff_Matches (ops : list op) (topic : string)
        (h : MessageHandler) :
  (h ∈ Lookup topic (run ops) ↔
   ∃ pattern, (pattern, h) ∈ bindings ops ∧ Matches pattern topic = true)
  ∧ (∀ seg rest n,
       lookup (seg :: rest) n
       = (from (child seg (node_children n)) (lookup rest)
          ++ from (child "+" (node_children n)) (lookup rest)
          ++ from (child "#" (node_children n)) node_handlers)%list)
  ∧ Matches "a/+/c" "a/b/c" = true
  ∧ Matches "a/+/c" "a/b/d/c" = false
  ∧ Matches "a/#" "a/b" = true
  ∧ Matches "a/#" "a/b/c/d" = true
  ∧ Lookup "a/b/c" (run [ OpAdd "a/+/c" 1 ]) = [ 1 ]
  ∧ Lookup "a/b/d/c" (run [ OpAdd "a/+/c" 1 ]) = []
  ∧ Lookup "a/b" (run [ OpAdd "a/#" 2 ]) = [ 2 ]
  ∧ Lookup "a/b/c/d" (run [ OpAdd "a/#" 2 ]) = [ 2 ].
Proof.
  split; [| repeat split; reflexivity].
  unfold Lookup, Matches. rewrite lookup_matches. split.
  - intros (path & Hb & Hm). rewrite bound_run in Hb.
    apply list_elem_of_fmap in Hb as ([p h'] & -> & Hin).
    apply list_elem_of_filter in Hin as [Hp Hin]. simpl in Hp. subst path.
    exists p. split; [exact Hin | exact Hm].
  - intros (pattern & Hin & Hm). exists (Split "/"%char pattern).
    split; [| exact Hm]. rewrite bound_run.
    apply list_elem_of_fmap. exists (pattern, h). split; [reflexivity |].
    apply list_elem_of_filter. split; [reflexivity | exact Hin].
Qed.

End TrieFacts.

(** ** The dispatcher *)

Section DispatcherFacts.
Context `{Codec}.

(** Calling each handler logs one call per handler, in order. *)
Lemma call_each_log (hs : list MessageHandler) (m : Message) (w : World) :
  call_each hs m w
  = Done tt {| client := client w;
               log := log w ++ map (λ h, CallMessage h m) hs |}.
Proof.
  revert w. induction hs as [| h hs IH]; intros w; simpl.
  - unfold ret. rewrite app_nil_r. now destruct w.
  - unfold bind, emit. rewrite IH. simpl. now rewrite <- app_assoc.
Qed.

(** C1.  For a message whose topic is outside the reserved prefix, with
    a default-message handler registered, the dispatcher looks the topic
    up in the registry; it calls the default handler exactly when the
    lookup is empty, and it calls every handler the lookup returned, in
    order; nothing else happens. *)
Theorem onMessage_data (m : Message) (w : World) (default : MessageHandler) :
  message (client w) = Some default →
  HasPrefix (Topic m) "emitter/" = false →
  onMessage m w
  = Done tt
      {| client := client w;
         log := log w
                ++ (match Trie.Lookup (Topic m) (handlers (client w)) with
                    | [] => [ CallMessage default m ]
                    | _ :: _ => []
                    end)
                ++ map (λ h, CallMessage h m)
                     (Trie.Lookup (Topic m) (handlers (client w))) |}.
Proof.
  intros Hmsg Hpre. unfold onMessage, bind, get_client.
  rewrite Hmsg, Hpre.
  destruct (Trie.Lookup (Topic m) (handlers (client w))) as [| h hs];
    cbn [length Nat.eqb].
  - unfold emit. rewrite call_each_log. simpl. now rewrite app_nil_r.
  - unfold ret. rewrite call_each_log. reflexivity.
Qed.

(** The administrative classification drops a topic outside the
    reserved prefix. *)
Lemma onAdministrative_drops (m : Message) (w : World) :
  HasPrefix (Topic m) "emitter/" = false →
  onAdministrative m w = Done tt w.
Proof.
  intros Hpre. unfold onAdministrative, bind, get_client.
  assert (HasPrefix (Topic m) "emitter/presence/" = false) as ->
    by exact (not_reserved_sub _ "presence/" Hpre).
  assert (HasPrefix (Topic m) "emitter/error/" = false) as ->
    by exact (not_reserved_sub _ "error/" Hpre).
  assert (HasPrefix (Topic m) "emitter/keygen/" = false) as ->
    by exact (not_reserved_sub _ "keygen/" Hpre).
  assert (HasPrefix (Topic m) "emitter/link/" = false) as ->
    by exact (not_reserved_sub _ "link/" Hpre).
  assert (HasPrefix (Topic m) "emitter/me/" = false) as ->
    by exact (not_reserved_sub _ "me/" Hpre).
  now destruct (presence (client w)).
Qed.

(** C9.  Without a default-message handler, a message on a topic outside
    the reserved prefix reaches no subscription handler, whatever the
    registry holds: it falls through to the administrative
    classification, where no case holds, and is dropped; the client and
    the log stay as they were. *)
Theorem onMessage_without_default (m : Message) (w : World) :
  message (client w) = None →
  HasPrefix (Topic m) "emitter/" = false →
  onMessage m w = onAdministrative m w
  ∧ onMessage m w = Done tt w.
Proof.
  intros Hmsg Hpre.
  assert (Hfall : onMessage m w = onAdministrative m w)
    by (unfold onMessage, bind, get_client; now rewrite Hmsg).
  split; [exact Hfall |]. rewrite Hfall. now apply onAdministrative_drops.
Qed.

(** A client is its fields. *)
Lemma set_store_same (c : Client) : set_store (store c) c = c.
Proof. now destruct c. Qed.

Lemma world_eta (w : World) : {| client := client w; log := log w |} = w.
Proof. now destruct w. Qed.

(** What notifying the store does to the world: a pending request is
    resolved with the value and leaves the map, and without one nothing
    changes. *)
Lemma notify_spec (id : N) (v : Response) (w : World) :
  notify id v w
  = match Store.slots (store (client w)) !! id with
    | Some ch =>
        Done true
          {| client :=
               set_store
                 {| Store.slots := delete id (Store.slots (store (client w)));
                    Store.buffer :=
                      <[ ch := v ]> (Store.buffer (store (client w)));
                    Store.fresh := Store.fresh (store (client w)) |}
                 (client w);
             log := log w |}
    | None => Done false w
    end.
Proof.
  unfold notify, Store.NotifyResponse.
  destruct (Store.slots (store (client w)) !! id); [reflexivity |].
  now rewrite set_store_same, world_eta.
Qed.

(** A topic under a reserved sub-prefix passes the data branch by. *)
Lemma onMessage_reserved (m : Message) (w : World) :
  HasPrefix (Topic m) "emitter/" = true →
  onMessage m w = onAdministrative m w.
Proof.
  intros Hpre. unfold onMessage, bind, get_client. rewrite Hpre.
  now destruct (message (client w)).
Qed.

(** A topic under one reserved sub-prefix is under no other. *)
Ltac other_prefix Hpre :=
  let r := fresh "r" in
  let Ht := fresh "Ht" in
  destruct (prefix_split _ _ Hpre) as [r Ht]; rewrite Ht; reflexivity.

Ltac enter_switch Hpre sub :=
  rewrite onMessage_reserved by exact (reserved_prefix _ sub Hpre);
  unfold onAdministrative at 1; unfold bind at 1; unfold get_client.

Lemma route_error (m : Message) (w : World) :
  HasPrefix (Topic m) "emitter/error/" = true →
  onMessage m w = onError m w.
Proof.
  intros Hpre. enter_switch Hpre "error/".
  assert (HasPrefix (Topic m) "emitter/presence/" = false) as ->
    by other_prefix Hpre.
  rewrite Hpre. now destruct (presence (client w)).
Qed.

Lemma route_keygen (m : Message) (w : World) :
  HasPrefix (Topic m) "emitter/keygen/" = true →
  onMessage m w = (onResponse m new_keyGenResponse ;;; ret tt) w.
Proof.
  intros Hpre. enter_switch Hpre "keygen/".
  assert (HasPrefix (Topic m) "emitter/presence/" = false) as ->
    by other_prefix Hpre.
  assert (HasPrefix (Topic m) "emitter/error/" = false) as ->
    by other_prefix Hpre.
  rewrite Hpre. now destruct (presence (client w)).
Qed.



(** [onError] by cases. *)
Lemma onError_eq (m : Message) (w : World) :
  onError m w
  = match decodeError (Payload m) with
    | None => Done tt w
    | Some e =>
        match errors (client w) with
        | None =>
            Done tt
              {| client := client w;
                 log := log w
                        ++ [ LogPrintln ("emitter: " +:+ Error_Error e) ] |}
        | Some h =>
            (let* delivered := notify (Error_RequestID e) (RError e) in
             if delivered then ret tt else emit (CallError h e)) w
        end
    end.
Proof.
  unfold onError. destruct (decodeError (Payload m)) as [e |];
    [| reflexivity].
  unfold bind at 1. unfold get_client.
  destruct (errors (client w)) as [h |]; [| reflexivity].
  unfold bind, ret. destruct (notify _ _ w) as [[|] w' | |]; reflexivity.
Qed.



(** ** What the dispatch context leaves alone *)

Lemma dispatched_refl (w : World) : dispatched w w.
Proof.
  split; try reflexivity; [exists []; now rewrite app_nil_r | auto].
Qed.

Lemma dispatched_trans (w1 w2 w3 : World) :
  dispatched w1 w2 → dispatched w2 w3 → dispatched w1 w3.
Proof.
  intros [] []. split; try congruence; [| auto].
  destruct d_log0 as [es1 E1], d_log1 as [es2 E2].
  exists (es1 ++ es2). now rewrite E2, E1, app_assoc.
Qed.

Lemma emit_dispatched (e : effect) (w : World) :
  ∃ w', emit e w = Done tt w' ∧ dispatched w w'.
Proof.
  eexists. split; [reflexivity |].
  split; try reflexivity; [now exists [ e ] | auto].
Qed.

Lemma notify_dispatched (id : N) (v : Response) (w : World) :
  ∃ b w', notify id v w = Done b w' ∧ dispatched w w'.
Proof.
  rewrite notify_spec.
  destruct (Store.slots (store (client w)) !! id) as [ch |] eqn:E.
  - do 2 eexists. split; [reflexivity |].
    split; try reflexivity; [exists []; now rewrite app_nil_r |].
    intros k Hk. simpl.
    destruct (decide (id = k)) as [-> | Hne];
      [apply lookup_delete_eq | now rewrite lookup_delete_ne].
  - do 2 eexists. split; [reflexivity | apply dispatched_refl].
Qed.

Lemma call_each_dispatched (hs : list MessageHandler) (m : Message)
      (w : World) :
  ∃ w', call_each hs m w = Done tt w' ∧ dispatched w w'.
Proof.
  rewrite call_each_log. eexists. split; [reflexivity |].
  split; try reflexivity; [eexists; reflexivity | auto].
Qed.

Lemma onResponse_dispatched (m : Message) (resp : Response) (w : World) :
  ∃ b w', onResponse m resp w = Done b w' ∧ dispatched w w'.
Proof.
  unfold onResponse. cbv zeta.
  assert (Hdrop : ∃ b w', ret (A := bool) false w = Done b w'
                          ∧ dispatched w w')
    by (do 2 eexists; split; [reflexivity | apply dispatched_refl]).
  assert (Htyped : ∃ b w',
             match Unmarshal (Payload m) resp with
             | Some resp' =>
                 if (0 <? RequestID resp')%N
                 then notify (RequestID resp') resp'
                 else ret false
             | None => ret false
             end w = Done b w' ∧ dispatched w w').
  { destruct (Unmarshal (Payload m) resp) as [r |]; [| exact Hdrop].
    destruct (0 <? RequestID r)%N; [apply notify_dispatched | exact Hdrop]. }
  destruct (decodeError (Payload m)) as [e |]; [| exact Htyped].
  destruct (negb (String.eqb (Error_Error e) ""));
    [apply notify_dispatched | exact Htyped].
Qed.

Lemma onError_dispatched (m : Message) (w : World) :
  ∃ w', onError m w = Done tt w' ∧ dispatched w w'.
Proof.
  rewrite onError_eq. destruct (decodeError (Payload m)) as [e |].
  - destruct (errors (client w)) as [h |].
    + unfold bind.
      destruct (notify_dispatched (Error_RequestID e) (RError e) w)
        as (b & w1 & -> & Hd).
      destruct b.
      * eexists. split; [reflexivity | exact Hd].
      * destruct (emit_dispatched (CallError h e) w1) as (w2 & -> & Hd2).
        eexists. split; [reflexivity | eapply dispatched_trans; eauto].
    + eexists. split; [reflexivity |].
      split; try reflexivity; [eexists; reflexivity | auto].
  - eexists. split; [reflexivity | apply dispatched_refl].
Qed.

Lemma onAdministrative_dispatched (m : Message) (w : World) :
  ∃ w', onAdministrative m w = Done tt w' ∧ dispatched w w'.
Proof.
  unfold onAdministrative. unfold bind at 1. unfold get_client.
  assert (Hdrop : ∃ w', ret tt w = Done tt w' ∧ dispatched w w')
    by (eexists; split; [reflexivity | apply dispatched_refl]).
  assert (Hresp : ∀ resp, ∃ w',
             (onResponse m resp ;;; ret tt) w = Done tt w'
             ∧ dispatched w w').
  { intros resp. unfold bind.
    destruct (onResponse_dispatched m resp w) as (b & w1 & -> & Hd).
    eexists. split; [reflexivity | exact Hd]. }
  assert (Hrest : ∃ w',
             (if HasPrefix (Topic m) "emitter/error/" then onError m
              else if HasPrefix (Topic m) "emitter/keygen/"
              then onResponse m new_keyGenResponse ;;; ret tt
              else if HasPrefix (Topic m) "emitter/link/"
              then onResponse m new_Link ;;; ret tt
              else if HasPrefix (Topic m) "emitter/me/"
              then onResponse m new_meResponse ;;; ret tt
              else ret tt) w = Done tt w' ∧ dispatched w w').
  { destruct (HasPrefix (Topic m) "emitter/error/");
      [apply onError_dispatched |].
    destruct (HasPrefix (Topic m) "emitter/keygen/"); [apply Hresp |].
    destruct (HasPrefix (Topic m) "emitter/link/"); [apply Hresp |].
    destruct (HasPrefix (Topic m) "emitter/me/"); [apply Hresp |].
    exact Hdrop. }
  destruct (presence (client w)) as [h |]; [| exact Hrest].
  destruct (HasPrefix (Topic m) "emitter/presence/"); [| exact Hrest].
  destruct (decodePresence (Payload m)) as [ev |];
    [apply emit_dispatched | exact Hdrop].
Qed.

(** The data branch of the dispatcher only appends calls to the log. *)
Lemma onMessage_data_log (m : Message) (w : World)
      (default : MessageHandler) :
  message (client w) = Some default →
  HasPrefix (Topic m) "emitter/" = false →
  ∃ es, onMessage m w
        = Done tt {| client := client w; log := log w ++ es |}
        ∧ Forall (λ e, ∃ h, e = CallMessage h m) es.
Proof.
  intros Hmsg Hpre. unfold onMessage, bind, get_client.
  rewrite Hmsg, Hpre.
  destruct (Trie.Lookup (Topic m) (handlers (client w))) as [| h hs];
    cbn [length Nat.eqb].
  - exists [ CallMessage default m ]. unfold emit, call_each, ret.
    split; [reflexivity |]. repeat constructor. now exists default.
  - unfold ret. rewrite call_each_log. eexists. split; [reflexivity |].
    apply Forall_forall. intros e He.
    apply list_elem_of_fmap in He as (h' & -> & _). now exists h'.
Qed.

(** The dispatcher always returns, and changes only the log and the
    pending requests. *)
Lemma onMessage_dispatched (m : Message) (w : World) :
  ∃ w', onMessage m w = Done tt w' ∧ dispatched w w'.
Proof.
  destruct (message (client w)) as [default |] eqn:Hmsg.
  - destruct (HasPrefix (Topic m) "emitter/") eqn:Hpre.
    + rewrite onMessage_reserved by exact Hpre.
      apply onAdministrative_dispatched.
    + destruct (onMessage_data_log m w default Hmsg Hpre) as (es & -> & _).
      eexists. split; [reflexivity |].
      split; try reflexivity; [eexists; reflexivity | auto].
  - assert (onMessage m w = onAdministrative m w) as ->
      by (unfold onMessage, bind, get_client; now rewrite Hmsg).
    apply onAdministrative_dispatched.
Qed.

Lemma dispatch_dispatched (inbound : list Message) :
  ∀ w, ∃ w', dispatch inbound w = Done tt w' ∧ dispatched w w'.
Proof.
  induction inbound as [| m rest IH]; intros w; simpl.
  - eexists. split; [reflexivity | apply dispatched_refl].
  - unfold bind. destruct (onMessage_dispatched m w) as (w1 & -> & Hd1).
    destruct (IH w1) as (w2 & -> & Hd2).
    eexists. split; [reflexivity | eapply dispatched_trans; eauto].
Qed.

End DispatcherFacts.

(** ** Blocking calls *)

Section RequestFacts.
Context `{Codec}.

(** [request] by stages: publish and register, let the dispatch context
    run, receive, then look at the token and at the reply. *)
Lemma request_eq (operation : string) (req : Request) (tok : Token)
      (inbound : list Message) (w : World) (payload : string) :
  Marshal req = Some payload →
  request operation req tok inbound w
  = match dispatch inbound (parked operation payload tok w) with
    | Done _ w2 =>
        match Store.receive (Store.fresh (store (client w)))
                            (store (client w2)) with
        | Some (resp, s) =>
            Done (request_outcome tok (timeout (client w2)) resp)
                 {| client := set_store s (client w2); log := log w2 |}
        | None => Blocked
        end
    | Blocked => Blocked
    | Panic msg => Panic msg
    end.
Proof.
  intros HM. unfold request. rewrite HM.
  unfold bind at 1. unfold emit. unfold bind at 1. unfold put_callback.
  cbn [client log Store.PutCallback]. unfold bind at 1. unfold await.
  unfold bind at 1. fold (parked operation payload tok w).
  change (dispatch inbound
            {| client :=
                 set_store
                   {| Store.slots :=
                        <[ MessageID tok := Store.fresh (store (client w)) ]>
                          (Store.slots (store (client w)));
                      Store.buffer :=
                        delete (Store.fresh (store (client w)))
                               (Store.buffer (store (client w)));
                      Store.fresh := S (Store.fresh (store (client w))) |}
                   (client w);
               log := log w
                      ++ [ ConnPublish ("emitter/" +:+ operation +:+ "/") 1
                                       false payload ] |})
    with (dispatch inbound (parked operation payload tok w)).
  destruct (dispatch inbound (parked operation payload tok w))
    as [[] w2 | | msg]; [| reflexivity | reflexivity].
  destruct (Store.receive (Store.fresh (store (client w)))
                          (store (client w2))) as [[resp s] |];
    [| reflexivity].
  unfold do, request_outcome, do_result, bind, get_client, ret.
  cbn [client timeout set_store].
  destruct (negb (WaitTimeout tok (timeout (client w2)))); [reflexivity |].
  destruct (token_Error tok); [reflexivity |].
  now destruct resp.
Qed.

(** C4 (what the code does).  A [request] for which no reply arrives
    does not return, whatever the token of the publish and the timeout
    of the client: the receive on the slot comes before the timed wait
    of [do] and has no bound of its own. *)
Theorem request_without_reply_never_returns
        (operation : string) (req : Request) (tok : Token) (w : World) :
  returned (request operation req tok [] w) = None
  ∧ (∀ payload, Marshal req = Some payload →
                request operation req tok [] w = Blocked).
Proof.
  assert (Hb : ∀ payload, Marshal req = Some payload →
                          request operation req tok [] w = Blocked).
  { intros payload HM. rewrite (request_eq _ _ _ _ _ _ HM).
    cbn [dispatch ret]. unfold Store.receive, parked.
    cbn [client store set_store Store.PutCallback snd Store.buffer].
    now rewrite lookup_delete_eq. }
  split; [| exact Hb].
  destruct (Marshal req) as [payload |] eqn:HM.
  - now rewrite (Hb payload).
  - unfold request. now rewrite HM.
Qed.

(** A [request] that returns went through every stage. *)
Lemma request_returned (operation : string) (req : Request) (tok : Token)
      (inbound : list Message) (w : World)
      (r : option Response * option error) :
  returned (request operation req tok inbound w) = Some r →
  ∃ payload w2 resp s,
    Marshal req = Some payload
    ∧ dispatched (parked operation payload tok w) w2
    ∧ Store.receive (Store.fresh (store (client w))) (store (client w2))
      = Some (resp, s)
    ∧ r = request_outcome tok (timeout (client w)) resp
    ∧ request operation req tok inbound w
      = Done r {| client := set_store s (client w2); log := log w2 |}.
Proof.
  intros Hret. destruct (Marshal req) as [payload |] eqn:HM.
  - rewrite (request_eq _ _ _ _ _ _ HM) in *.
    destruct (dispatch_dispatched inbound (parked operation payload tok w))
      as (w2 & Hrun & Hd).
    rewrite Hrun in *.
    destruct (Store.receive (Store.fresh (store (client w)))
                            (store (client w2))) as [[resp s] |] eqn:Hrecv;
      [| discriminate].
    simpl in Hret. injection Hret as <-.
    exists payload, w2, resp, s.
    assert (Ht : timeout (client w2) = timeout (client w))
      by (rewrite (d_timeout _ _ Hd); reflexivity).
    rewrite Ht.
    split; [reflexivity |]. split; [exact Hd |]. split; [exact Hrecv |].
    split; reflexivity.
  - unfold request in Hret. rewrite HM in Hret. discriminate.
Qed.

(** What [GenerateKey] returns is decided by the token and by the reply
    it received. *)
Lemma GenerateKey_outcome (key channel permissions : string) (ttl : Z)
      (tok : Token) (inbound : list Message) (w : World)
      (k : string) (err : option error) :
  returned (GenerateKey key channel permissions ttl tok inbound w)
  = Some (k, err) →
  ∃ resp,
    (k, err) = match do_result tok (timeout (client w)) with
               | Some e => ("", Some e)
               | None =>
                   match resp with
                   | RError e => ("", Some (ErrService e))
                   | RKeyGen result => (Key result, None)
                   | _ => ("", Some ErrUnmarshal)
                   end
               end.
Proof.
  unfold GenerateKey, bind. intros Hret.
  destruct (request "keygen" _ tok inbound w) as [r w' | |] eqn:Hreq;
    [| discriminate | discriminate].
  assert (Hr : returned (request "keygen"
                 (ReqKeygen {| kreq_Key := key; kreq_Channel := channel;
                               kreq_Type := permissions; kreq_TTL := ttl |})
                 tok inbound w) = Some r) by now rewrite Hreq.
  apply request_returned in Hr
      as (payload & w2 & resp & s & _ & _ & _ & -> & _).
  exists resp. unfold request_outcome in Hret.
  destruct (do_result tok (timeout (client w))) as [e |].
  - simpl in Hret. now injection Hret as <- <-.
  - destruct resp; simpl in Hret; now injection Hret as <- <-.
Qed.

(** Nothing is ever pending under request id 0 as long as the transport
    hands out message ids other than 0: a returning [request] keeps it
    so, and so does the dispatch context ([d_slots]). *)
Lemma request_keeps_zero_free (operation : string) (req : Request)
      (tok : Token) (inbound : list Message) (w w' : World) :
  MessageID tok ≠ 0%N →
  Store.slots (store (client w)) !! 0%N = None →
  world_after (request operation req tok inbound w) = Some w' →
  Store.slots (store (client w')) !! 0%N = None.
Proof.
  intros Hid Hfree Hafter.
  destruct (request operation req tok inbound w) as [r w1 | |] eqn:Hreq;
    [| discriminate | discriminate].
  injection Hafter as ->.
  assert (Hr : returned (request operation req tok inbound w) = Some r)
    by now rewrite Hreq.
  destruct (request_returned _ _ _ _ _ _ Hr)
    as (payload & w2 & resp & s & _ & Hd & Hrecv & _ & Hdone).
  rewrite Hreq in Hdone. injection Hdone as ->.
  cbn [client store set_store]. unfold Store.receive in Hrecv.
  destruct (Store.buffer (store (client w2)) !! _); [| discriminate].
  injection Hrecv as _ <-. cbn [Store.slots].
  apply (d_slots _ _ Hd). unfold parked.
  cbn [client store set_store Store.PutCallback snd Store.slots].
  now rewrite lookup_insert_ne.
Qed.

Lemma ID_when_cached (tok : Token) (inbound : list Message) (w : World) :
  guid (client w) ≠ "" →
  ID tok inbound w = Done (guid (client w)) w.
Proof.
  intros Hg. unfold ID, bind, get_client.
  destruct (String.eqb_spec (guid (client w)) ""); [contradiction |].
  reflexivity.
Qed.

(** C7.  With a cached identifier [ID] returns it, issues no request and
    leaves the world as it is.  With none, it issues the me request and,
    when the request returns a typed me reply, stores the identifier of
    the reply and returns it; every later call then returns the stored
    identifier (when it is not empty) without a request. *)
Theorem ID_lazy_cached (tok : Token) (inbound : list Message) (w : World) :
  (guid (client w) ≠ "" →
   ID tok inbound w = Done (guid (client w)) w)
  ∧ (guid (client w) = "" →
     ∀ result,
       returned (request "me" ReqNil tok inbound w)
       = Some (Some (RMe result), None) →
       ∃ w' payload rest,
         ID tok inbound w = Done (me_ID result) w'
         ∧ guid (client w') = me_ID result
         ∧ Marshal ReqNil = Some payload
         ∧ log w'
           = log w ++ ConnPublish "emitter/me/" 1 false payload :: rest
         ∧ (me_ID result ≠ "" →
            ∀ tok' inbound',
              ID tok' inbound' w' = Done (me_ID result) w')).
Proof.
  split; [apply ID_when_cached |].
  intros Hg result Hret.
  destruct (request_returned _ _ _ _ _ _ Hret)
    as (payload & w2 & resp & s & HM & Hd & _ & _ & Hreq).
  destruct (d_log _ _ Hd) as [es Hlog].
  exists {| client := set_guid (me_ID result) (set_store s (client w2));
            log := log w2 |}, payload, es.
  split; [| split; [reflexivity | split; [exact HM | split]]].
  - unfold ID. unfold bind at 1. unfold get_client at 1. rewrite Hg.
    cbn [String.eqb negb]. unfold bind at 1. rewrite Hreq. reflexivity.
  - cbn [log]. rewrite Hlog. unfold parked. cbn [log].
    now rewrite <- app_assoc.
  - intros Hne tok' inbound'.
    now rewrite ID_when_cached by (cbn [client guid set_guid]; exact Hne).
Qed.

End RequestFacts.

Section LinkFacts.
Context `{Codec} {Option : Type} `{Stringer Option}.

(** The same for the two link calls. *)
Lemma createLink_outcome (private : bool) (key channel name : string)
      (optionalHandler : option MessageHandler) (options : list Option)
      (tok : Token) (inbound : list Message) (w : World)
      (l : option Link) (err : option error) :
  returned (createLink private key channel name optionalHandler options
                       tok inbound w)
  = Some (l, err) →
  ∃ resp,
    (l, err) = match do_result tok (timeout (client w)) with
               | Some e => (None, Some e)
               | None =>
                   match resp with
                   | RError e => (None, Some (ErrService e))
                   | RLink result => (Some result, None)
                   | _ => (None, Some ErrUnmarshal)
                   end
               end.
Proof.
  unfold createLink. unfold bind at 1. intros Hret.
  destruct (request "link" _ tok inbound w) as [r w' | |] eqn:Hreq;
    [| discriminate | discriminate].
  assert (Hr : returned (request "link"
                 (ReqLink {| lreq_Name := name; lreq_Key := key;
                             lreq_Channel := formatTopic "" channel options;
                             lreq_Subscribe :=
                               bool_decide (is_Some optionalHandler);
                             lreq_Private := private |})
                 tok inbound w) = Some r) by now rewrite Hreq.
  apply request_returned in Hr
      as (payload & w2 & resp & s & _ & _ & _ & -> & _).
  exists resp. unfold request_outcome in Hret.
  destruct (do_result tok (timeout (client w))) as [e |].
  - simpl in Hret. now injection Hret as <- <-.
  - destruct resp; try (simpl in Hret; now injection Hret as <- <-).
    destruct optionalHandler; simpl in Hret; now injection Hret as <- <-.
Qed.

(** C5 (amended).  A blocking administrative call that returns, returns
    what the token of its publish and the reply it received decide: the
    Timeout error when the token did not complete in time, the error of
    the transport when it completed with one, the error of the service
    when the reply is an error envelope, the typed result (and no error)
    when the reply has the type the call expects, and the error
    [ErrUnmarshal] when the reply has another type.  With an error the
    result is the zero value, and without one it is the typed result:
    never a part of it.  A reply that decodes neither as an error
    envelope nor as the typed response is dropped by the dispatcher: it
    reaches no caller as an error of its own. *)
Theorem blocking_call_outcome :
  (∀ key channel permissions ttl tok inbound w k err,
     returned (GenerateKey key channel permissions ttl tok inbound w)
     = Some (k, err) →
     (∃ resp,
        (k, err) = match do_result tok (timeout (client w)) with
                   | Some e => ("", Some e)
                   | None =>
                       match resp with
                       | RError e => ("", Some (ErrService e))
                       | RKeyGen result => (Key result, None)
                       | _ => ("", Some ErrUnmarshal)
                       end
                   end)
     ∧ (err ≠ None → k = ""))
  ∧ (∀ private key channel name optionalHandler (options : list Option)
       tok inbound w l err,
       returned (createLink private key channel name optionalHandler
                            options tok inbound w)
       = Some (l, err) →
       (∃ resp,
          (l, err) = match do_result tok (timeout (client w)) with
                     | Some e => (None, Some e)
                     | None =>
                         match resp with
                         | RError e => (None, Some (ErrService e))
                         | RLink result => (Some result, None)
                         | _ => (None, Some ErrUnmarshal)
                         end
                     end)
       ∧ (err ≠ None → l = None)
       ∧ (err = None → is_Some l))
  ∧ (∀ m resp w,
       decodeError (Payload m) = None →
       Unmarshal (Payload m) resp = None →
       onResponse m resp w = Done false w).
Proof.
  split; [| split].
  3: { intros m resp w He Hr. unfold onResponse. now rewrite He, Hr. }
  - intros * Hret. destruct (GenerateKey_outcome _ _ _ _ _ _ _ _ _ Hret)
      as [resp Hres].
    split; [now exists resp |].
    destruct (do_result tok (timeout (client w)));
      [now injection Hres as -> -> |].
    destruct resp; injection Hres as -> ->; congruence.
  - intros * Hret.
    destruct (createLink_outcome _ _ _ _ _ _ _ _ _ _ _ Hret) as [resp Hres].
    split; [now exists resp |].
    destruct (do_result tok (timeout (client w)));
      [injection Hres as -> ->; split; congruence |].
    destruct resp; injection Hres as -> ->; split; eauto; congruence.
Qed.

(** C10.  [Subscribe] with a handler adds the handler to the registry
    first and issues the transport subscribe in the world that already
    holds it; whatever becomes of the token (no completion in time, an
    error of the transport), the handler stays registered.  [Unsubscribe]
    removes the handlers of the channel first, and they stay removed
    whatever becomes of the token. *)
Theorem registry_not_rolled_back
        (key channel : string) (h : MessageHandler)
        (options : list Option) (tok : Token) (w : World) :
  Subscribe key channel (Some h) options tok w
  = (emit (ConnSubscribe (formatTopic key channel options) 0) ;;; do tok)
      {| client :=
           set_handlers (Trie.AddHandler channel h (handlers (client w)))
                        (client w);
         log := log w |}
  ∧ Subscribe key channel (Some h) options tok w
    = Done (do_result tok (timeout (client w)))
        {| client :=
             set_handlers (Trie.AddHandler channel h (handlers (client w)))
                          (client w);
           log := log w
                  ++ [ ConnSubscribe (formatTopic key channel options) 0 ] |}
  ∧ Unsubscribe (Option := Option) key channel tok w
    = (emit (ConnUnsubscribe (formatTopic key channel ([] : list Option)))
       ;;; do tok)
        {| client :=
             set_handlers (Trie.RemoveHandler channel (handlers (client w)))
                          (client w);
           log := log w |}
  ∧ Unsubscribe (Option := Option) key channel tok w
    = Done (do_result tok (timeout (client w)))
        {| client :=
             set_handlers (Trie.RemoveHandler channel (handlers (client w)))
                          (client w);
           log := log w
                  ++ [ ConnUnsubscribe
                         (formatTopic key channel ([] : list Option)) ] |}
  ∧ (∀ tok', do_result tok' (timeout (client w)) = Some ErrTimeout
             ↔ WaitTimeout tok' (timeout (client w)) = false)
  ∧ (∀ tok' msg,
       do_result tok' (timeout (client w)) = Some (ErrTransport msg)
       ↔ WaitTimeout tok' (timeout (client w)) = true
         ∧ token_Error tok' = Some msg).
Proof.
  assert (Hdo : ∀ w0,
             do tok w0 = Done (do_result tok (timeout (client w0))) w0).
  { intros w0. unfold do, do_result, bind, get_client, ret.
    now destruct (negb (WaitTimeout tok (timeout (client w0)))). }
  split; [reflexivity |].
  split; [unfold Subscribe, bind, emit, modify_client; now rewrite Hdo |].
  split; [reflexivity |].
  split; [unfold Unsubscribe, bind, emit, modify_client; now rewrite Hdo |].
  split.
  - intros tok'. unfold do_result.
    destruct (WaitTimeout tok' (timeout (client w))); simpl;
      [| easy].
    destruct (token_Error tok'); easy.
  - intros tok' msg. unfold do_result.
    destruct (WaitTimeout tok' (timeout (client w))); simpl;
      [| split; [discriminate | now intros [? _]]].
    destruct (token_Error tok'); simpl; split;
      try discriminate; try congruence.
    + intros [= ->]. easy.
    + intros [_ [= ->]]. reflexivity.
    + now intros [_ ?].
Qed.

End LinkFacts.

(** ** Sample runs *)

Module Runs.
Import Sample.

Example formatTopic_samples :
  formatTopic "key" "a/b/" [ "ttl=5"; "last=3" ] = "key/a/b/?ttl=5&last=3"
  ∧ formatTopic "key" "a/b/" ([] : list string) = "key/a/b/"
  ∧ formatTopic "" "a/b/" [ "ttl=5" ] = "a/b/?ttl=5"
  ∧ formatTopic "/" "/a/b" ([] : list string) = "a/b/".
Proof. repeat split; reflexivity. Qed.

Example GenerateKey_samples :
  returned (GenerateKey "key" "a/" "rw" 0 acked [ keygen_msg ] w0)
  = Some ("K1", None)
  ∧ returned (GenerateKey "key" "a/" "rw" 0 acked [ refusal_msg ] w0)
    = Some ("", Some (ErrService {| err_Request := 7;
                                    err_Message := "unauthorized" |}))
  ∧ returned (GenerateKey "key" "a/" "rw" 0 unacked [ keygen_msg ] w0)
    = Some ("", Some ErrTimeout).
Proof. repeat split; vm_compute; reflexivity. Qed.

(** The failing input of C4: the publish is acknowledged after a
    millisecond and the reply is dropped as undecodable, or there is no
    reply at all and no acknowledgement either; the call does not
    return. *)
Example GenerateKey_blocks :
  GenerateKey "key" "a/" "rw" 0 acked [ garbled_msg ] w0 = Blocked
  ∧ GenerateKey "key" "a/" "rw" 0 unacked [] w0 = Blocked
  ∧ ID unacked [] w0 = Blocked.
Proof. repeat split; vm_compute; reflexivity. Qed.

(** Witness of C1: a message matching the registered pattern reaches its
    handler and not the default one; a message matching nothing reaches
    the default one. *)
Lemma onMessage_data_witness :
  log <$> world_after (onMessage data_msg w_subscribed)
  = Some [ CallMessage 1 data_msg ]
  ∧ log <$> world_after (onMessage stray_msg w_subscribed)
    = Some [ CallMessage 100 stray_msg ].
Proof.
  split.
  - rewrite (onMessage_data data_msg w_subscribed 100 eq_refl eq_refl).
    reflexivity.
  - rewrite (onMessage_data stray_msg w_subscribed 100 eq_refl eq_refl).
    reflexivity.
Defined.

(** Witness of C9: without a default handler the matching handler 1 is
    not called. *)
Lemma onMessage_without_default_witness :
  onMessage data_msg w_no_default = Done tt w_no_default.
Proof.
  exact (proj2 (onMessage_without_default data_msg w_no_default
                  eq_refl eq_refl)).
Defined.



(** Witness of C7: the first [ID] asks the service and stores the
    answer. *)
Lemma ID_lazy_cached_witness :
  returned (ID acked [ me_msg ] w0) = Some "client-1".
Proof.
  assert (Hret : returned (request "me" ReqNil acked [ me_msg ] w0)
                 = Some (Some (RMe {| me_Request := 7;
                                      me_ID := "client-1" |}), None))
    by (vm_compute; reflexivity).
  destruct (proj2 (ID_lazy_cached acked [ me_msg ] w0) eq_refl _ Hret)
    as (w' & payload & rest & HID & _).
  rewrite HID. reflexivity.
Defined.

(** Counterexample of C5: the reply that resolves a pending
    key-generation request is a link; the call returns [ErrUnmarshal],
    which is no Timeout, no error of the transport and no error of the
    service. *)
Lemma GenerateKey_ErrUnmarshal :
  ∃ e,
    returned (GenerateKey "key" "a/" "rw" 0 acked [ link_msg ] w0)
    = Some ("", Some e)
    ∧ e = ErrUnmarshal
    ∧ e ≠ ErrTimeout
    ∧ (∀ msg, e ≠ ErrTransport msg)
    ∧ (∀ envelope, e ≠ ErrService envelope).
Proof.
  exists ErrUnmarshal. split; [vm_compute; reflexivity |].
  repeat split; intros; discriminate.
Qed.

(** Witness of C5 (amended), at the same input and at a typed reply. *)
Lemma blocking_call_outcome_witness :
  ((∃ resp,
      ("", Some ErrUnmarshal)
      = match do_result acked (timeout (client w0)) with
        | Some e => ("", Some e)
        | None =>
            match resp with
            | RError e => ("", Some (ErrService e))
            | RKeyGen result => (Key result, None)
            | _ => ("", Some ErrUnmarshal)
            end
        end)
   ∧ (Some ErrUnmarshal ≠ None → "" = ""))
  ∧ ((∃ resp,
        ("K1", None)
        = match do_result acked (timeout (client w0)) with
          | Some e => ("", Some e)
          | None =>
              match resp with
              | RError e => ("", Some (ErrService e))
              | RKeyGen result => (Key result, None)
              | _ => ("", Some ErrUnmarshal)
              end
          end)
     ∧ ((None : option error) ≠ None → "K1" = "")).
Proof.
  split.
  - apply (proj1 (blocking_call_outcome (Option := string))
             "key" "a/" "rw" 0%Z acked [ link_msg ] w0).
    vm_compute. reflexivity.
  - apply (proj1 (blocking_call_outcome (Option := string))
             "key" "a/" "rw" 0%Z acked [ keygen_msg ] w0).
    vm_compute. reflexivity.
Defined.

End Runs.

(** * More of the client *)

(** ** The dispatcher on the reserved topics *)

Ltac into_switch Hpre sub :=
  rewrite onMessage_reserved by exact (reserved_prefix _ sub Hpre);
  unfold onAdministrative at 1; unfold bind at 1; unfold get_client.

Ltac not_under Hpre :=
  let r := fresh "r" in
  let Ht := fresh "Ht" in
  destruct (prefix_split _ _ Hpre) as [r Ht]; rewrite Ht; reflexivity.

Section ReservedTopics.
Context `{Codec}.

(** X1.  With a presence callback registered, a message under the
    presence sub-prefix goes to that callback and to nothing else, when
    its payload decodes as a presence event, whatever default handler
    and registry the client has; a payload that does not decode is
    dropped and the world stays as it was. *)
Theorem onMessage_presence (m : Message) (w : World) (h : PresenceHandler) :
  presence (client w) = Some h →
  HasPrefix (Topic m) "emitter/presence/" = true →
  onMessage m w
  = match decodePresence (Payload m) with
    | Some ev =>
        Done tt {| client := client w;
                   log := log w ++ [ CallPresence h ev ] |}
    | None => Done tt w
    end.
Proof.
  intros Hp Hpre. into_switch Hpre "presence/". rewrite Hp, Hpre.
  now destruct (decodePresence (Payload m)).
Qed.

(** X2.  Without a presence callback a message under the presence
    sub-prefix is dropped: no callback, no log line, no change of the
    client, also when a default-message handler is registered. *)
Theorem presence_without_callback_dropped (m : Message) (w : World) :
  presence (client w) = None →
  HasPrefix (Topic m) "emitter/presence/" = true →
  onMessage m w = Done tt w.
Proof.
  intros Hp Hpre. into_switch Hpre "presence/". rewrite Hp.
  assert (HasPrefix (Topic m) "emitter/error/" = false) as ->
    by not_under Hpre.
  assert (HasPrefix (Topic m) "emitter/keygen/" = false) as ->
    by not_under Hpre.
  assert (HasPrefix (Topic m) "emitter/link/" = false) as ->
    by not_under Hpre.
  assert (HasPrefix (Topic m) "emitter/me/" = false) as ->
    by not_under Hpre.
  reflexivity.
Qed.


(** [onResponse] either drops the message or notifies the store once. *)
Lemma onResponse_cases (m : Message) (resp : Response) (w : World) :
  onResponse m resp w = Done false w
  ∨ ∃ id v, onResponse m resp w = notify id v w.
Proof.
  unfold onResponse. cbv zeta.
  assert (Htyped :
    match Unmarshal (Payload m) resp with
    | Some resp' =>
        if (0 <? RequestID resp')%N
        then notify (RequestID resp') resp'
        else ret false
    | None => ret false
    end w = Done false w
    ∨ ∃ id v,
        match Unmarshal (Payload m) resp with
        | Some resp' =>
            if (0 <? RequestID resp')%N
            then notify (RequestID resp') resp'
            else ret false
        | None => ret false
        end w = notify id v w).
  { destruct (Unmarshal (Payload m) resp) as [r |]; [| now left].
    destruct (0 <? RequestID r)%N; [right; eauto | now left]. }
  destruct (decodeError (Payload m)) as [e |]; [| exact Htyped].
  destruct (negb (String.eqb (Error_Error e) ""));
    [right; eauto | exact Htyped].
Qed.




(** X5.  [onResponse] reports whether it resolved a pending request:
    when it returns true, a request was pending under some id, its slot
    has left the store filled, and nothing was logged; when it returns
    false the world is as it was. *)
Theorem onResponse_reports_resolution
        (m : Message) (resp : Response) (w w' : World) (b : bool) :
  onResponse m resp w = Done b w' →
  if b
  then ∃ id ch v,
         Store.slots (store (client w)) !! id = Some ch
         ∧ Store.slots (store (client w'))
           = delete id (Store.slots (store (client w)))
         ∧ Store.buffer (store (client w')) !! ch = Some v
         ∧ log w' = log w
  else w' = w.
Proof.
  intros Hrun.
  destruct (onResponse_cases m resp w) as [Hd | (id & v & Hn)].
  - rewrite Hd in Hrun. injection Hrun as <- <-. reflexivity.
  - rewrite Hn, notify_spec in Hrun.
    destruct (Store.slots (store (client w)) !! id) as [ch |] eqn:Hs.
    + injection Hrun as <- <-. exists id, ch, v.
      cbn [client store set_store Store.slots Store.buffer log].
      repeat split; auto. apply lookup_insert_eq.
    + injection Hrun as <- <-. reflexivity.
Qed.

End ReservedTopics.

(** ** Requests and their replies *)

Section RequestReplies.
Context `{Codec}.

Lemma parked_slot (operation payload : string) (tok : Token) (w : World) :
  Store.slots (store (client (parked operation payload tok w)))
    !! MessageID tok
  = Some (Store.fresh (store (client w))).
Proof.
  unfold parked. cbn [client store set_store Store.PutCallback snd
                      Store.slots].
  apply lookup_insert_eq.
Qed.

Lemma parked_other_slot (operation payload : string) (tok : Token)
      (w : World) (id : N) :
  id ≠ MessageID tok →
  Store.slots (store (client (parked operation payload tok w))) !! id
  = Store.slots (store (client w)) !! id.
Proof.
  intros Hne. unfold parked.
  cbn [client store set_store Store.PutCallback snd Store.slots].
  now rewrite lookup_insert_ne.
Qed.

(** A [request] whose only inbound message leaves the store of the
    parked caller as it is does not return. *)
Lemma request_unresolved (operation : string) (req : Request) (tok : Token)
      (m : Message) (w : World) (payload : string) :
  Marshal req = Some payload →
  store <$> (client <$> world_after
                          (onMessage m (parked operation payload tok w)))
  = Some (store (client (parked operation payload tok w))) →
  request operation req tok [ m ] w = Blocked.
Proof.
  intros HM Hsame. rewrite (request_eq _ _ _ _ _ _ HM).
  cbn [dispatch]. unfold bind.
  destruct (onMessage_dispatched m (parked operation payload tok w))
    as (w2 & Hrun & _).
  rewrite Hrun in *. simpl in Hsame. injection Hsame as Hsame.
  cbn [ret]. rewrite Hsame. unfold Store.receive. cbn [Store.buffer].
  now rewrite lookup_delete_eq.
Qed.

(** A [request] whose only inbound message notifies the store under the
    id of the publish with [v] returns what the token and [v] decide,
    having logged the publish and nothing else. *)
Lemma request_resolved (operation : string) (req : Request) (tok : Token)
      (m : Message) (w : World) (payload : string) (v : Response) :
  Marshal req = Some payload →
  world_after (onMessage m (parked operation payload tok w))
  = world_after (notify (MessageID tok) v (parked operation payload tok w)) →
  ∃ w',
    request operation req tok [ m ] w
    = Done (request_outcome tok (timeout (client w)) v) w'
    ∧ log w'
      = log w ++ [ ConnPublish ("emitter/" +:+ operation +:+ "/") 1 false
                               payload ]
    ∧ handlers (client w') = handlers (client w)
    ∧ guid (client w') = guid (client w).
Proof.
  intros HM Hnote. rewrite (request_eq _ _ _ _ _ _ HM).
  cbn [dispatch]. unfold bind.
  destruct (onMessage_dispatched m (parked operation payload tok w))
    as (w2 & Hrun & _).
  rewrite Hrun in *. rewrite notify_spec, parked_slot in Hnote.
  simpl in Hnote. injection Hnote as ->. cbn [ret].
  unfold Store.receive.
  cbn [client store set_store Store.buffer].
  rewrite lookup_insert_eq. eexists. split; [reflexivity |].
  repeat split.
Qed.

Lemma onResponse_typed (m : Message) (resp r : Response) (w : World) :
  (∀ e, decodeError (Payload m) = Some e → Error_Error e = "") →
  Unmarshal (Payload m) resp = Some r →
  onResponse m resp w
  = if (0 <? RequestID r)%N then notify (RequestID r) r w
    else Done false w.
Proof.
  intros Hne Hr. unfold onResponse. cbv zeta.
  destruct (decodeError (Payload m)) as [e |].
  - rewrite (Hne e eq_refl). cbn [String.eqb negb]. rewrite Hr.
    now destruct (0 <? RequestID r)%N.
  - rewrite Hr. now destruct (0 <? RequestID r)%N.
Qed.

Lemma onResponse_error (m : Message) (resp : Response) (e : Error)
      (w : World) :
  decodeError (Payload m) = Some e →
  Error_Error e ≠ "" →
  onResponse m resp w = notify (Error_RequestID e) (RError e) w.
Proof.
  intros He Hne. unfold onResponse. cbv zeta. rewrite He.
  destruct (String.eqb_spec (Error_Error e) ""); [contradiction |].
  reflexivity.
Qed.

(** A reply under the key-generation sub-prefix leaves the world
    [onResponse] leaves. *)
Lemma keygen_world (m : Message) (w : World) :
  HasPrefix (Topic m) "emitter/keygen/" = true →
  world_after (onMessage m w)
  = world_after (onResponse m new_keyGenResponse w).
Proof.
  intros Hpre. rewrite route_keygen by exact Hpre. unfold bind.
  now destruct (onResponse m new_keyGenResponse w).
Qed.

Lemma GenerateKey_of_request (key channel permissions : string) (ttl : Z)
      (tok : Token) (inbound : list Message) (w w' : World) (v : Response) :
  request "keygen"
    (ReqKeygen {| kreq_Key := key; kreq_Channel := channel;
                  kreq_Type := permissions; kreq_TTL := ttl |})
    tok inbound w
  = Done (request_outcome tok (timeout (client w)) v) w' →
  GenerateKey key channel permissions ttl tok inbound w
  = Done (match do_result tok (timeout (client w)) with
          | Some e => ("", Some e)
          | None =>
              match v with
              | RError e => ("", Some (ErrService e))
              | RKeyGen result => (Key result, None)
              | _ => ("", Some ErrUnmarshal)
              end
          end) w'.
Proof.
  intros Hreq. unfold GenerateKey, bind. rewrite Hreq.
  unfold request_outcome.
  destruct (do_result tok (timeout (client w))); [reflexivity |].
  now destruct v.
Qed.

(** X6.  The round trip of a key generation: when the reply that arrives
    under the key-generation sub-prefix is no error envelope with a
    message and decodes as a typed response carrying the message id of
    the publish, [GenerateKey] returns the key of that reply and no
    error, provided the publish was acknowledged in time and without
    error; otherwise it returns the error of the token and the reply is
    lost.  The call logs its publish on emitter/keygen/ and nothing
    else. *)
Theorem GenerateKey_round_trip
        (key channel permissions : string) (ttl : Z) (tok : Token)
        (m : Message) (w : World) (payload : string) (r : keyGenResponse) :
  Marshal (ReqKeygen {| kreq_Key := key; kreq_Channel := channel;
                        kreq_Type := permissions; kreq_TTL := ttl |})
  = Some payload →
  HasPrefix (Topic m) "emitter/keygen/" = true →
  (∀ e, decodeError (Payload m) = Some e → Error_Error e = "") →
  decodeKeyGen (Payload m) = Some r →
  kg_Request r = MessageID tok →
  (0 < MessageID tok)%N →
  ∃ w',
    GenerateKey key channel permissions ttl tok [ m ] w
    = Done (match do_result tok (timeout (client w)) with
            | Some e => ("", Some e)
            | None => (Key r, None)
            end) w'
    ∧ log w' = log w ++ [ ConnPublish "emitter/keygen/" 1 false payload ].
Proof.
  intros HM Hpre Hne Hr Hid Hpos.
  destruct (request_resolved "keygen" _ tok m w payload (RKeyGen r) HM)
    as (w' & Hreq & Hlog & _).
  { rewrite keygen_world by exact Hpre.
    rewrite (onResponse_typed _ _ (RKeyGen r)); try exact Hne.
    - cbn [RequestID]. rewrite Hid.
      now destruct (N.ltb_spec 0 (MessageID tok)); [| lia].
    - unfold Unmarshal, new_keyGenResponse. now rewrite Hr. }
  exists w'. split; [| exact Hlog].
  exact (GenerateKey_of_request _ _ _ _ _ _ _ _ _ Hreq).
Qed.

(** X7.  An error envelope with a message, carrying the message id of a
    pending key generation, resolves it with the error of the service,
    whether it arrives under the key-generation sub-prefix or under the
    error sub-prefix of a client with an error callback; in both cases
    the error callback is not called: the log holds the publish only. *)
Theorem service_error_reaches_caller
        (key channel permissions : string) (ttl : Z) (tok : Token)
        (m : Message) (w : World) (payload : string) (e : Error) :
  Marshal (ReqKeygen {| kreq_Key := key; kreq_Channel := channel;
                        kreq_Type := permissions; kreq_TTL := ttl |})
  = Some payload →
  decodeError (Payload m) = Some e →
  Error_Error e ≠ "" →
  Error_RequestID e = MessageID tok →
  HasPrefix (Topic m) "emitter/keygen/" = true
  ∨ (HasPrefix (Topic m) "emitter/error/" = true
     ∧ errors (client w) ≠ None) →
  ∃ w',
    GenerateKey key channel permissions ttl tok [ m ] w
    = Done ("", Some match do_result tok (timeout (client w)) with
                     | Some e' => e'
                     | None => ErrService e
                     end) w'
    ∧ log w' = log w ++ [ ConnPublish "emitter/keygen/" 1 false payload ].
Proof.
  intros HM He Hne Hid Hroute.
  destruct (request_resolved "keygen" _ tok m w payload (RError e) HM)
    as (w' & Hreq & Hlog & _).
  { destruct Hroute as [Hpre | [Hpre Hcb]].
    - rewrite keygen_world by exact Hpre.
      rewrite (onResponse_error _ _ e) by assumption. now rewrite Hid.
    - rewrite route_error by exact Hpre. rewrite onError_eq, He.
      change (errors (client (parked "keygen" payload tok w)))
        with (errors (client w)).
      destruct (errors (client w)) as [h |]; [| contradiction].
      unfold bind. rewrite Hid, notify_spec, parked_slot. reflexivity. }
  exists w'. split; [| exact Hlog].
  rewrite (GenerateKey_of_request _ _ _ _ _ _ _ _ _ Hreq).
  now destruct (do_result tok (timeout (client w))).
Qed.

(** X8.  On a client without an error callback, an error envelope under
    the error sub-prefix resolves nothing, not even the request whose id
    it carries: it is logged at most, and a [request] that gets this
    answer only does not return. *)
Theorem error_topic_without_callback_blocks
        (operation : string) (req : Request) (tok : Token)
        (m : Message) (w : World) (payload : string) :
  Marshal req = Some payload →
  errors (client w) = None →
  HasPrefix (Topic m) "emitter/error/" = true →
  request operation req tok [ m ] w = Blocked.
Proof.
  intros HM Hcb Hpre. apply (request_unresolved _ _ _ _ _ _ HM).
  rewrite route_error by exact Hpre. rewrite onError_eq.
  change (errors (client (parked operation payload tok w)))
    with (errors (client w)).
  rewrite Hcb. now destruct (decodeError (Payload m)).
Qed.

(** X9.  Replies are matched by request id: a typed reply that carries
    another id than the message id of the publish, under which nothing
    is pending, is dropped and the call keeps waiting. *)
Theorem reply_for_other_request_ignored
        (key channel permissions : string) (ttl : Z) (tok : Token)
        (m : Message) (w : World) (payload : string) (r : keyGenResponse) :
  Marshal (ReqKeygen {| kreq_Key := key; kreq_Channel := channel;
                        kreq_Type := permissions; kreq_TTL := ttl |})
  = Some payload →
  HasPrefix (Topic m) "emitter/keygen/" = true →
  (∀ e, decodeError (Payload m) = Some e → Error_Error e = "") →
  decodeKeyGen (Payload m) = Some r →
  kg_Request r ≠ MessageID tok →
  Store.slots (store (client w)) !! kg_Request r = None →
  GenerateKey key channel permissions ttl tok [ m ] w = Blocked.
Proof.
  intros HM Hpre Hne Hr Hid Hfree.
  unfold GenerateKey, bind.
  rewrite (request_unresolved "keygen" _ tok m w payload HM);
    [reflexivity |].
  rewrite keygen_world by exact Hpre.
  rewrite (onResponse_typed _ _ (RKeyGen r)); try exact Hne.
  - cbn [RequestID]. destruct (0 <? kg_Request r)%N; [| reflexivity].
    rewrite notify_spec, parked_other_slot by exact Hid.
    now rewrite Hfree.
  - unfold Unmarshal, new_keyGenResponse. now rewrite Hr.
Qed.

End RequestReplies.

(** ** What a blocking call leaves behind *)

Section AfterRequest.
Context `{Codec} {Option : Type} `{Stringer Option}.

(** A [request] that returns leaves the registry and the identifier of
    the client as they were. *)
Lemma request_frame (operation : string) (req : Request) (tok : Token)
      (inbound : list Message) (w w' : World)
      (r : option Response * option error) :
  request operation req tok inbound w = Done r w' →
  handlers (client w') = handlers (client w)
  ∧ guid (client w') = guid (client w).
Proof.
  intros Hreq.
  assert (Hr : returned (request operation req tok inbound w) = Some r)
    by now rewrite Hreq.
  destruct (request_returned _ _ _ _ _ _ Hr)
    as (payload & w2 & resp & s & _ & Hd & _ & _ & Hdone).
  rewrite Hreq in Hdone. injection Hdone as ->.
  cbn [client handlers guid set_store].
  now rewrite (d_handlers _ _ Hd), (d_guid _ _ Hd).
Qed.

(** X10.  [CreateLink] and [CreatePrivateLink] touch the registry on
    success only: when the call returns a link and a handler was given,
    the handler is added under the channel of the returned link (the one
    the service answered, not the one asked for); when it returns an
    error, or no handler was given, the registry is as it was. *)
Theorem createLink_registers_on_success
        (private : bool) (key channel name : string)
        (optionalHandler : option MessageHandler) (options : list Option)
        (tok : Token) (inbound : list Message) (w w' : World)
        (l : option Link) (err : option error) :
  createLink private key channel name optionalHandler options tok inbound w
  = Done (l, err) w' →
  handlers (client w')
  = match l, optionalHandler with
    | Some result, Some h =>
        Trie.AddHandler (Channel result) h (handlers (client w))
    | _, _ => handlers (client w)
    end.
Proof.
  unfold createLink. unfold bind at 1. intros Hrun.
  destruct (request "link" _ tok inbound w) as [[resp e] w1 | |] eqn:Hreq;
    [| discriminate | discriminate].
  destruct (request_frame _ _ _ _ _ _ _ Hreq) as [Hh _].
  destruct e as [e |].
  - destruct resp as [[] |]; unfold ret in Hrun;
      injection Hrun as <- <- <-; exact Hh.
  - destruct resp as [[e | r | result | r] |]; unfold ret in Hrun;
      try (injection Hrun as <- <- <-; exact Hh).
    destruct optionalHandler as [h |];
      unfold bind, modify_client, ret in Hrun;
      injection Hrun as <- <- <-; cbn [client handlers set_handlers];
      now rewrite Hh.
Qed.

(** X11.  [ID] hides every failure of its request: when the request
    returns an error (a timeout, an error of the transport or of the
    service) or a reply that is no me reply, [ID] returns the empty
    string, and the identifier of the client stays empty, so that the
    next call asks again. *)
Theorem ID_hides_failure (tok : Token) (inbound : list Message)
        (w w1 : World) (r : option Response * option error) :
  guid (client w) = "" →
  request "me" ReqNil tok inbound w = Done r w1 →
  (∀ result, r ≠ (Some (RMe result), None)) →
  ID tok inbound w = Done "" w1.
Proof.
  intros Hg Hreq Hbad.
  destruct (request_frame _ _ _ _ _ _ _ Hreq) as [_ Hguid].
  unfold ID. unfold bind at 1. unfold get_client at 1. rewrite Hg.
  cbn [String.eqb negb]. unfold bind at 1. rewrite Hreq.
  assert (Hskip :
    (match r with
     | (Some (RMe result), None) => modify_client (set_guid (me_ID result))
     | _ => ret tt
     end) = ret tt).
  { destruct r as [[[e | k | l | result] |] [e' |]]; try reflexivity.
    now destruct (Hbad result). }
  rewrite Hskip. unfold bind, ret, get_client. now rewrite Hguid, Hg.
Qed.

End AfterRequest.

(** ** Topics of the publishing calls *)

Lemma prefix_empty (s : string) : String.prefix "" s = true.
Proof. now destruct s. Qed.

Lemma substring_all (s : string) :
  String.substring 0 (String.length s) s = s.
Proof. induction s as [| c s IH]; simpl; [reflexivity | now rewrite IH]. Qed.

Lemma length_append_slash (s : string) :
  String.length (s +:+ "/") = S (String.length s).
Proof.
  induction s as [| c s IH]; [reflexivity |].
  rewrite append_cons. simpl. now rewrite IH.
Qed.

Lemma substring_last_slash (s : string) :
  String.substring (String.length s) 1 (s +:+ "/") = "/".
Proof. induction s as [| c s IH]; [reflexivity | exact IH]. Qed.

Lemma substring_but_slash (s : string) :
  String.substring 0 (String.length s) (s +:+ "/") = s.
Proof.
  induction s as [| c s IH]; [reflexivity |].
  rewrite append_cons. simpl. now rewrite IH.
Qed.

(** One slash before and one after are taken off, whatever is between. *)
Lemma clean_wrapped (s : string) : clean ("/" +:+ s +:+ "/") = s.
Proof.
  unfold clean.
  assert (TrimPrefix ("/" +:+ s +:+ "/") "/" = s +:+ "/") as ->.
  { unfold TrimPrefix, HasPrefix.
    change ("/" +:+ s +:+ "/") with (String "/" (s +:+ "/")).
    simpl. rewrite prefix_empty. rewrite Nat.sub_0_r.
    apply substring_all. }
  unfold TrimSuffix, HasSuffix. rewrite length_append_slash.
  cbn [String.length]. rewrite Nat.sub_succ, Nat.sub_0_r.
  rewrite substring_last_slash. simpl. apply substring_but_slash.
Qed.

Section TopicFacts.
Context {Option : Type} `{Stringer Option}.

(** The topic by its cleaned parts. *)
Lemma formatTopic_clean (key channel : string) (options : list Option) :
  formatTopic key channel options
  = (if String.eqb (clean key) "" then "" else clean key +:+ "/")
    +:+ clean channel +:+ "/" +:+ query_spec options.
Proof.
  unfold formatTopic. rewrite formatTopic_query. fold (clean key).
  fold (clean channel). destruct (clean key) as [| c k]; [reflexivity |].
  cbn [String.length Nat.eqb String.eqb]. now rewrite !append_assoc.
Qed.

(** X12.  A key and a channel may be written with or without a slash
    before and after: [formatTopic] takes one leading and one trailing
    slash off each, and only one, so the topic of a wrapped key and
    channel is built from what the slashes enclosed. *)
Theorem formatTopic_strips_one_slash
        (key channel : string) (options : list Option) :
  formatTopic ("/" +:+ key +:+ "/") ("/" +:+ channel +:+ "/") options
  = (if String.eqb key "" then "" else key +:+ "/")
    +:+ channel +:+ "/" +:+ query_spec options.
Proof.
  rewrite formatTopic_clean.
  rewrite (clean_wrapped key), (clean_wrapped channel).
  reflexivity.
Qed.

Context `{OptionMakers Option}.

(** X13.  [PublishWithTTL] publishes once, at QoS 0 and not retained, on
    the topic of the cleaned key and channel with the time-to-live
    option as its query, and [SubscribeWithHistory] subscribes to the
    topic with the last option as its query after registering the
    handler it was given; both return what [do] returns for the token,
    and the publish leaves the client as it is. *)
Theorem option_wrappers
        (key channel payload : string) (ttl last : Z)
        (optionalHandler : option MessageHandler) (tok : Token) (w : World) :
  PublishWithTTL key channel payload ttl tok w
  = Done (do_result tok (timeout (client w)))
      {| client := client w;
         log := log w
                ++ [ ConnPublish
                       ((if String.eqb (clean key) "" then ""
                         else clean key +:+ "/")
                        +:+ clean channel +:+ "/?" +:+ ToString (WithTTL ttl))
                       0 false payload ] |}
  ∧ SubscribeWithHistory key channel last optionalHandler tok w
    = Done (do_result tok (timeout (client w)))
        {| client :=
             match optionalHandler with
             | Some h =>
                 set_handlers
                   (Trie.AddHandler channel h (handlers (client w)))
                   (client w)
             | None => client w
             end;
           log := log w
                  ++ [ ConnSubscribe
                         ((if String.eqb (clean key) "" then ""
                           else clean key +:+ "/")
                          +:+ clean channel +:+ "/?"
                          +:+ ToString (WithLast last))
                         0 ] |}.
Proof.
  assert (Hdo : ∀ w0,
             do tok w0 = Done (do_result tok (timeout (client w0))) w0).
  { intros w0. unfold do, do_result, bind, get_client, ret.
    now destruct (negb (WaitTimeout tok (timeout (client w0)))). }
  assert (Hq : ∀ o : Option,
             formatTopic key channel [ o ]
             = (if String.eqb (clean key) "" then "" else clean key +:+ "/")
               +:+ clean channel +:+ "/?" +:+ ToString o).
  { intros o. rewrite formatTopic_clean. cbn [query_spec map Join].
    reflexivity. }
  split.
  - unfold PublishWithTTL, Publish, bind, emit. now rewrite Hdo, Hq.
  - unfold SubscribeWithHistory, Subscribe, bind, emit. rewrite Hq.
    destruct optionalHandler; unfold modify_client, ret; now rewrite Hdo.
Qed.

End TopicFacts.

(** ** Presence *)

Section PresenceFacts.
Context `{Codec} `{PresenceEncoder}.

(** X14.  [Presence] is fire and forget: it publishes the marshalled
    request at QoS 1 on emitter/presence/, waits for the token only and
    registers no pending request; the answer of the service is an
    inbound presence event, which reaches the presence callback when one
    is registered.  A call followed by the dispatch of its answer logs
    the publish and the call of the callback, and returns. *)
Theorem Presence_then_answer
        (key channel : string) (status changes : bool) (tok : Token)
        (m : Message) (w : World) (req : string)
        (h : PresenceHandler) (ev : PresenceEvent) :
  MarshalPresence {| preq_Key := key; preq_Channel := channel;
                     preq_Status := status; preq_Changes := changes |}
  = inl req →
  presence (client w) = Some h →
  HasPrefix (Topic m) "emitter/presence/" = true →
  decodePresence (Payload m) = Some ev →
  Presence key channel status changes tok w
  = Done (DoError <$> do_result tok (timeout (client w)))
      {| client := client w;
         log := log w ++ [ ConnPublish "emitter/presence/" 1 false req ] |}
  ∧ (Presence key channel status changes tok ;;; dispatch [ m ]) w
    = Done tt
        {| client := client w;
           log := log w ++ [ ConnPublish "emitter/presence/" 1 false req;
                             CallPresence h ev ] |}.
Proof.
  intros HM Hp Hpre Hev.
  assert (Hcall :
    Presence key channel status changes tok w
    = Done (DoError <$> do_result tok (timeout (client w)))
        {| client := client w;
           log := log w
                  ++ [ ConnPublish "emitter/presence/" 1 false req ] |}).
  { unfold Presence. rewrite HM.
    unfold do, do_result, bind, emit, get_client, ret. cbn [client timeout].
    now destruct (negb (WaitTimeout tok (timeout (client w)))). }
  split; [exact Hcall |].
  unfold bind at 1. rewrite Hcall. cbn [dispatch]. unfold bind.
  into_switch Hpre "presence/". cbn [client]. rewrite Hp, Hpre, Hev.
  unfold emit, ret. cbn [client log]. now rewrite <- app_assoc.
Qed.

End PresenceFacts.

(** ** Disconnect *)

(** X15.  [Disconnect] hands the wait to the transport in whole
    milliseconds, rounded down: a wait of less than a millisecond
    becomes no wait.  A negative wait of a millisecond or more does not
    become zero: converted to an unsigned integer of 64 bits it is a
    wait of more than 2^63 milliseconds. *)
Theorem Disconnect_quiesce_truncates (bits waitTime : Z) :
  (0 ≤ waitTime → waitTime ÷ 1000000 < 2 ^ bits →
   Disconnect_quiesce bits waitTime = waitTime / 1000000
   ∧ 1000000 * Disconnect_quiesce bits waitTime ≤ waitTime
     < 1000000 * (Disconnect_quiesce bits waitTime + 1))%Z
  ∧ (0 ≤ waitTime < 1000000 → 0 < bits →
     Disconnect_quiesce bits waitTime = 0)%Z
  ∧ (- 2 ^ 63 ≤ waitTime ≤ - 1000000 →
     2 ^ 63 ≤ Disconnect_quiesce 64 waitTime)%Z.
Proof.
  unfold Disconnect_quiesce, uint. split; [| split].
  - intros Hnn Hfit. rewrite Z.quot_div_nonneg in * by lia.
    assert (0 ≤ waitTime / 1000000)%Z by (apply Z.div_pos; lia).
    rewrite Z.mod_small by lia. split; [reflexivity |].
    pose proof (Z.div_mod waitTime 1000000 ltac:(lia)).
    pose proof (Z.mod_pos_bound waitTime 1000000 ltac:(lia)). lia.
  - intros Hsmall Hbits. rewrite Z.quot_small by lia.
    apply Z.mod_0_l. apply Z.pow_nonzero; lia.
  - intros Hneg.
    pose proof (Z.quot_rem' waitTime 1000000) as Hqr.
    pose proof (Z.rem_bound_abs waitTime 1000000 ltac:(lia)) as Hr.
    pose proof (Z.rem_nonpos waitTime 1000000 ltac:(lia) ltac:(lia))
      as Hr'.
    assert (Hq : (- 2 ^ 63 ≤ waitTime ÷ 1000000 ≤ -1)%Z) by lia.
    rewrite <- (Z_mod_plus_full _ 1 (2 ^ 64)).
    rewrite Z.mod_small by lia. lia.
Qed.

(** ** Replies without a request id *)

Section ZeroId.
Context `{Codec}.

(** X16.  Only typed replies are guarded by their request id.  With a
    request pending under id 0 (a publish the transport gave no message
    id), a typed reply without request id is dropped and the request
    stays pending, while an error envelope with a message and without
    request id resolves that request. *)
Theorem zero_id_guard_is_for_typed_replies_only
        (m : Message) (resp : Response) (w : World) (ch : nat) :
  Store.slots (store (client w)) !! 0%N = Some ch →
  (∀ r,
     (∀ e, decodeError (Payload m) = Some e → Error_Error e = "") →
     Unmarshal (Payload m) resp = Some r →
     RequestID r = 0%N →
     onResponse m resp w = Done false w)
  ∧ (∀ e,
       decodeError (Payload m) = Some e →
       Error_Error e ≠ "" →
       Error_RequestID e = 0%N →
       ∃ w', onResponse m resp w = Done true w'
             ∧ Store.slots (store (client w')) !! 0%N = None
             ∧ Store.buffer (store (client w')) !! ch = Some (RError e)).
Proof.
  intros Hpending. split.
  - intros r Hne Hr Hid. rewrite (onResponse_typed m resp r w Hne Hr).
    now rewrite Hid.
  - intros e He Hne Hid. rewrite (onResponse_error m resp e w He Hne).
    rewrite Hid, notify_spec, Hpending. eexists. split; [reflexivity |].
    cbn [client store set_store Store.slots Store.buffer].
    split; [apply lookup_delete_eq | apply lookup_insert_eq].
Qed.

End ZeroId.

(** ** More sample runs *)

Module MoreRuns.
Import Sample MoreSample.

(** Witness of X1. *)
Lemma onMessage_presence_witness :
  onMessage (H := presence_codec) presence_msg w_presence
  = Done tt {| client := client w_presence;
               log := [ CallPresence 300
                          {| presence_data := "status a/" |} ] |}.
Proof.
  exact (onMessage_presence (H := presence_codec) presence_msg w_presence
           300 eq_refl eq_refl).
Defined.

(** Witness of X2: the sample client has a default-message handler and
    no presence callback. *)
Lemma presence_without_callback_dropped_witness :
  onMessage (H := presence_codec) presence_msg w0 = Done tt w0.
Proof.
  exact (presence_without_callback_dropped (H := presence_codec)
           presence_msg w0 eq_refl eq_refl).
Defined.


(** Witness of X5: the key-generation reply resolves the caller parked
    under id 7. *)
Lemma onResponse_reports_resolution_witness :
  ∃ id ch v,
    Store.slots (store (client w_parked)) !! id = Some ch
    ∧ Store.slots
        (store (client (left_by (onResponse keygen_msg new_keyGenResponse
                                            w_parked))))
      = delete id (Store.slots (store (client w_parked)))
    ∧ Store.buffer
        (store (client (left_by (onResponse keygen_msg new_keyGenResponse
                                            w_parked))))
        !! ch = Some v
    ∧ log (left_by (onResponse keygen_msg new_keyGenResponse w_parked))
      = log w_parked.
Proof.
  apply (onResponse_reports_resolution keygen_msg new_keyGenResponse
           w_parked _ true).
  vm_compute. reflexivity.
Defined.

(** Witness of X6: the key K1 comes back. *)
Lemma GenerateKey_round_trip_witness :
  ∃ w',
    GenerateKey "key" "a/" "rw" 0 acked [ keygen_msg ] w0
    = Done ("K1", None) w'
    ∧ log w' = [ ConnPublish "emitter/keygen/" 1 false "{type:keygen}" ].
Proof.
  refine (GenerateKey_round_trip "key" "a/" "rw" 0%Z acked keygen_msg w0
            "{type:keygen}" {| kg_Request := 7; Key := "K1" |}
            eq_refl eq_refl _ eq_refl eq_refl eq_refl).
  intros e [= <-]. reflexivity.
Defined.

(** Witness of X7: the refusal of the service comes back as the error of
    the call; the error callback 200 of the sample client is not
    called. *)
Lemma service_error_reaches_caller_witness :
  (∃ w',
     GenerateKey "key" "a/" "rw" 0 acked [ refusal_msg ] w0
     = Done ("", Some (ErrService {| err_Request := 7;
                                     err_Message := "unauthorized" |})) w'
     ∧ log w' = [ ConnPublish "emitter/keygen/" 1 false "{type:keygen}" ])
  ∧ (∃ w',
       GenerateKey "key" "a/" "rw" 0 acked [ error_for_7 ] w0
       = Done ("", Some (ErrService {| err_Request := 7;
                                       err_Message := "unauthorized" |})) w'
       ∧ log w' = [ ConnPublish "emitter/keygen/" 1 false "{type:keygen}" ]).
Proof.
  split.
  - refine (service_error_reaches_caller "key" "a/" "rw" 0%Z acked
              refusal_msg w0 "{type:keygen}"
              {| err_Request := 7; err_Message := "unauthorized" |}
              eq_refl eq_refl _ eq_refl (or_introl eq_refl)).
    discriminate.
  - refine (service_error_reaches_caller "key" "a/" "rw" 0%Z acked
              error_for_7 w0 "{type:keygen}"
              {| err_Request := 7; err_Message := "unauthorized" |}
              eq_refl eq_refl _ eq_refl (or_intror (conj eq_refl _))).
    + discriminate.
    + discriminate.
Defined.

(** Witness of X8: the same error on a client without callbacks. *)
Lemma error_topic_without_callback_blocks_witness :
  request "keygen" ReqNil acked [ error_for_7 ] w_bare = Blocked.
Proof.
  exact (error_topic_without_callback_blocks "keygen" ReqNil acked
           error_for_7 w_bare "null" eq_refl eq_refl eq_refl).
Defined.

(** Witness of X9: the reply carries id 7, the publish has id 9. *)
Lemma reply_for_other_request_ignored_witness :
  GenerateKey "key" "a/" "rw" 0 acked9 [ keygen_msg ] w0 = Blocked.
Proof.
  refine (reply_for_other_request_ignored "key" "a/" "rw" 0%Z acked9
            keygen_msg w0 "{type:keygen}" {| kg_Request := 7; Key := "K1" |}
            eq_refl eq_refl _ eq_refl _ _).
  - intros e [= <-]. reflexivity.
  - discriminate.
  - apply lookup_empty.
Defined.

(** Witness of X10: asked for a/, the service answers the link on a/b/;
    handler 5 is registered under a/b/. *)
Lemma createLink_registers_on_success_witness :
  handlers (client (left_by (CreateLink "key" "a/" "l1" (Some 5)
                                        ([] : list string) acked
                                        [ link_msg ] w0)))
  = Trie.AddHandler "a/b/" 5 (handlers (client w0)).
Proof.
  refine (createLink_registers_on_success false "key" "a/" "l1" (Some 5)
            ([] : list string) acked [ link_msg ] w0 _
            (Some {| link_Request := 7; link_Name := "l1";
                     Channel := "a/b/" |}) None _).
  vm_compute. reflexivity.
Defined.

(** Witness of X11: the me reply arrives but the publish is never
    acknowledged. *)
Lemma ID_hides_failure_witness :
  ID unacked [ me_msg ] w0
  = Done "" (left_by (request "me" ReqNil unacked [ me_msg ] w0)).
Proof.
  refine (ID_hides_failure unacked [ me_msg ] w0 _
            (None, Some ErrTimeout) eq_refl _ _).
  - vm_compute. reflexivity.
  - intros result. discriminate.
Defined.

(** Witness of X14. *)
Lemma Presence_then_answer_witness :
  (Presence (H := presence_encoder) "key" "a/" true false acked
   ;;; dispatch (H := presence_codec) [ presence_msg ]) w_presence
  = Done tt
      {| client := client w_presence;
         log := [ ConnPublish "emitter/presence/" 1 false
                              "{key:key,channel:a/}";
                  CallPresence 300 {| presence_data := "status a/" |} ] |}.
Proof.
  exact (proj2 (Presence_then_answer (H := presence_codec)
                  (H0 := presence_encoder) "key" "a/" true false acked
                  presence_msg w_presence "{key:key,channel:a/}" 300
                  {| presence_data := "status a/" |}
                  eq_refl eq_refl eq_refl eq_refl)).
Defined.

(** Witness of X15: a wait of a millisecond and a half is a wait of one
    millisecond, and a wait of minus one millisecond is a long one. *)
Lemma Disconnect_quiesce_truncates_witness :
  Disconnect_quiesce 64 1500000 = 1%Z
  ∧ (2 ^ 63 ≤ Disconnect_quiesce 64 (-1000000))%Z.
Proof.
  split.
  - apply (proj1 (proj1 (Disconnect_quiesce_truncates 64 1500000)
                    ltac:(lia) ltac:(reflexivity))).
  - apply (proj2 (proj2 (Disconnect_quiesce_truncates 64 (-1000000)))).
    lia.
Defined.

(** Witness of X16: a caller is parked under id 0; the error pushed
    without request id resolves it, the typed reply without request id
    does not. *)
Lemma zero_id_guard_witness :
  onResponse (H := typed_zero_codec) push_reply new_keyGenResponse
             w_parked_zero
  = Done false w_parked_zero
  ∧ ∃ w',
      onResponse push_reply new_keyGenResponse w_parked_zero = Done true w'
      ∧ Store.slots (store (client w')) !! 0%N = None
      ∧ Store.buffer (store (client w')) !! 0%nat
        = Some (RError {| err_Request := 0; err_Message := "boom" |}).
Proof.
  split.
  - refine (proj1 (zero_id_guard_is_for_typed_replies_only
                     (H := typed_zero_codec) push_reply new_keyGenResponse
                     w_parked_zero 0 _)
              (RKeyGen {| kg_Request := 0; Key := "K0" |}) _ eq_refl eq_refl).
    + apply (parked_slot "keygen" "{type:keygen}" failed w0).
    + intros e [=].
  - refine (proj2 (zero_id_guard_is_for_typed_replies_only
                     push_reply new_keyGenResponse w_parked_zero 0 _)
              {| err_Request := 0; err_Message := "boom" |} eq_refl _ eq_refl).
    + apply (parked_slot "keygen" "{type:keygen}" failed w0).
    + discriminate.
Defined.

End MoreRuns.
